(** * notate: the colour-catalog generator [fetch_more_colors.py]

    A shallow embedding of the script that merges an externally fetched
    colour-name list into the catalog embedded in [ColorNamer.kt], and of the
    [getColorName] matcher the script writes into that file.

    Conventions of the embedding.
    - Python [str] values are [string]s of code points below 128: the casing
      and whitespace tables below are the ASCII part of Python's, and
      characters from 128 on are outside the model.
    - The decoded JSON document is the inductive [json]; a dict is an
      association list in insertion order.
    - A Python exception is a [Raise] in the [outcome] monad; a [try/except]
      is a match on it.
    - The sets [seen_hex] and [seen_names] are [gset string]s. *)

From Stdlib Require Import ZArith NArith String Ascii List Lia Bool Floats Reals.
From stdpp Require Import gmap strings list.

Local Open Scope string_scope.
Local Open Scope Z_scope.

#[local] Set Warnings "-clear-no-such-hyp".

(** ** Exceptions *)

Inductive exn : Type := AttributeError | TypeError | ValueError.

Inductive outcome (A : Type) : Type :=
  | Ok (a : A)
  | Raise (e : exn).
Arguments Ok {A} a.
Arguments Raise {A} e.

#[global] Instance outcome_ret : MRet outcome := fun A a => Ok a.

#[global] Instance outcome_bind : MBind outcome := fun A B k m =>
  match m with
  | Ok a => k a
  | Raise e => Raise e
  end.

(** ** Characters and the [str] methods the script calls *)

Module Char.

Definition code (c : ascii) : N := N_of_ascii c.

Definition between (lo hi : N) (c : ascii) : bool :=
  ((lo <=? code c) && (code c <=? hi))%N.

Definition is_upper : ascii -> bool := between 65 90.
Definition is_lower : ascii -> bool := between 97 122.
Definition is_digit : ascii -> bool := between 48 57.

(** A cased character: of the ASCII ones, the letters. *)
Definition is_cased (c : ascii) : bool := is_upper c || is_lower c.

Definition to_lower (c : ascii) : ascii :=
  if is_upper c then ascii_of_N (code c + 32) else c.

Definition to_upper (c : ascii) : ascii :=
  if is_lower c then ascii_of_N (code c - 32) else c.

(** [Py_ISSPACE], the whitespace [int()] skips: tab, LF, VT, FF, CR, space. *)
Definition is_c_space (c : ascii) : bool :=
  between 9 13 c || (code c =? 32)%N.

(** [str.isspace] and the regex class [\s] on a [str] pattern: the above
    and the separators FS, GS, RS, US. *)
Definition is_space (c : ascii) : bool :=
  is_c_space c || between 28 31 c.

(** [_PyLong_DigitValue]: 0-9, then a-z and A-Z as 10-35. *)
Definition digit_value (c : ascii) : option Z :=
  if is_digit c then Some (Z.of_N (code c) - 48)
  else if is_lower c then Some (Z.of_N (code c) - 87)
  else if is_upper c then Some (Z.of_N (code c) - 55)
  else None.

Definition is_ascii (c : ascii) : bool := (code c <? 128)%N.

End Char.

Module Str.

Fixpoint map (f : ascii -> ascii) (s : string) : string :=
  match s with
  | EmptyString => EmptyString
  | String c t => String (f c) (map f t)
  end.

Fixpoint forallb (p : ascii -> bool) (s : string) : bool :=
  match s with
  | EmptyString => true
  | String c t => p c && forallb p t
  end.

(** [s.lower()] *)
Definition lower (s : string) : string := map Char.to_lower s.

(** [s.title()], CPython's [do_title]: a character is lower-cased when the
    character before it is cased and title-cased otherwise. *)
Fixpoint title_from (previous_is_cased : bool) (s : string) : string :=
  match s with
  | EmptyString => EmptyString
  | String c t =>
      String (if previous_is_cased then Char.to_lower c else Char.to_upper c)
             (title_from (Char.is_cased c) t)
  end.

Definition title (s : string) : string := title_from false s.

(** [s.lstrip(ch)] for a one-character argument: every leading [ch] goes. *)
Fixpoint lstrip (ch : ascii) (s : string) : string :=
  match s with
  | EmptyString => EmptyString
  | String c t => if Ascii.eqb c ch then lstrip ch t else s
  end.

(** [s[i:i+n]]: clipped at the end of the string, never an error. *)
Definition slice (i n : nat) (s : string) : string := String.substring i n s.

Fixpoint drop_while (p : ascii -> bool) (s : string) : string :=
  match s with
  | EmptyString => EmptyString
  | String c t => if p c then drop_while p t else s
  end.

Definition is_ascii (s : string) : bool := forallb Char.is_ascii s.

End Str.

(** ** [int(s, base)]

    CPython's [PyLong_FromString] on an ASCII string: leading whitespace, an
    optional sign, for base 16 an optional [0x]/[0X] followed by at most one
    underscore, then digits with single underscores between them, then
    trailing whitespace.  (The limit on the number of decimal digits of
    recent interpreters is not modelled.) *)

Module PyInt.

Definition stop (ndigits : nat) (prev_underscore : bool) (acc : Z) (rest : string)
  : option (Z * string) :=
  if prev_underscore then None
  else match ndigits with
       | O => None
       | S _ => Some (acc, rest)
       end.

(** The digit scan: consumes digits below [base] and underscores, refuses two
    underscores in a row and a trailing one, and wants one digit at least. *)
Fixpoint scan (base : Z) (s : string) (acc : Z) (ndigits : nat) (prev_underscore : bool)
  : option (Z * string) :=
  match s with
  | EmptyString => stop ndigits prev_underscore acc s
  | String c t =>
      if Ascii.eqb c "_" then
        if prev_underscore then None else scan base t acc ndigits true
      else
        match Char.digit_value c with
        | Some d =>
            if d <? base then scan base t (acc * base + d) (S ndigits) false
            else stop ndigits prev_underscore acc s
        | None => stop ndigits prev_underscore acc s
        end
  end.

Definition split_sign (s : string) : bool * string :=
  match s with
  | String "+" t => (false, t)
  | String "-" t => (true, t)
  | _ => (false, s)
  end.

Definition skip_prefix (base : Z) (s : string) : string :=
  match s with
  | String "0" (String x t) =>
      if (base =? 16) && (Ascii.eqb x "x" || Ascii.eqb x "X") then
        match t with
        | String "_" t' => t'
        | _ => t
        end
      else s
  | _ => s
  end.

Definition starts_with_underscore (s : string) : bool :=
  match s with
  | String "_" _ => true
  | _ => false
  end.

Definition int (base : Z) (s : string) : outcome Z :=
  let s1 := Str.drop_while Char.is_c_space s in
  let '(negative, s2) := split_sign s1 in
  let s3 := skip_prefix base s2 in
  if starts_with_underscore s3 then Raise ValueError
  else
    match scan base s3 0 O false with
    | Some (v, rest) =>
        match Str.drop_while Char.is_c_space rest with
        | EmptyString => Ok (if negative then - v else v)
        | String _ _ => Raise ValueError
        end
    | None => Raise ValueError
    end.

End PyInt.

(** ** [hex_to_rgb] *)

Definition hex_to_rgb (hex_color : string) : outcome (Z * Z * Z) :=
  let hex_color := Str.lstrip "#" hex_color in
  r ← PyInt.int 16 (Str.slice 0 2 hex_color);
  g ← PyInt.int 16 (Str.slice 2 2 hex_color);
  b ← PyInt.int 16 (Str.slice 4 2 hex_color);
  Ok (r, g, b).

(** ** The decoded JSON document

    What [json.loads] returns.  A dict lists its items in insertion order,
    under distinct keys. *)

#[warnings="-register-all"]
Inductive json : Type :=
  | JNull
  | JBool (b : bool)
  | JInt (z : Z)
  | JFloat (f : float)
  | JStr (s : string)
  | JList (items : list json)
  | JDict (fields : list (string * json)).

(** Truth value of an object, as [if name and hex_val] tests it. *)
Definition truthy (v : json) : bool :=
  match v with
  | JNull => false
  | JBool b => b
  | JInt z => negb (z =? 0)
  | JFloat f => negb (PrimFloat.eqb f PrimFloat.zero)
  | JStr s => negb (String.eqb s "")
  | JList items => negb (Nat.eqb (length items) 0)
  | JDict fields => negb (Nat.eqb (length fields) 0)
  end.

(** [d.get(key)]: the value under [key], [None] when there is none. *)
Fixpoint dict_get (fields : list (string * json)) (key : string) : json :=
  match fields with
  | [] => JNull
  | (k, v) :: rest => if String.eqb k key then v else dict_get rest key
  end.

(** One element of [parsed_new_colors]: [{'name': name, 'hex': hex_val}]. *)
Record raw_record : Type := RawRecord { rec_name : json; rec_hex : json }.

(** The loop over a list document.  Only a dict has [.get]: any other element
    raises [AttributeError] when its turn comes. *)
Fixpoint flatten_list (items : list json) (parsed : list raw_record)
  : outcome (list raw_record) :=
  match items with
  | [] => Ok parsed
  | JDict fields :: rest =>
      let name := dict_get fields "name" in
      let hex_val := dict_get fields "hex" in
      if truthy name && truthy hex_val
      then flatten_list rest (parsed ++ [RawRecord name hex_val])
      else flatten_list rest parsed
  | _ :: _ => Raise AttributeError
  end.

(** The loop over a dict document: keys are hex values, values are names,
    and nothing is filtered. *)
Fixpoint flatten_dict (fields : list (string * json)) (parsed : list raw_record)
  : list raw_record :=
  match fields with
  | [] => parsed
  | (hex_val, name) :: rest =>
      flatten_dict rest (parsed ++ [RawRecord name (JStr hex_val)])
  end.

(** "Adapt structure": [parsed_new_colors] from [new_colors_data]. *)
Definition flatten (new_colors_data : json) : outcome (list raw_record) :=
  match new_colors_data with
  | JList items => flatten_list items []
  | JDict fields => Ok (flatten_dict fields [])
  | _ => Ok []
  end.

(** ** The catalog and the merge *)

(** An element of [final_colors]: the tuple [(name, r, g, b)]. *)
Record color : Type := Color { name : string; red : Z; green : Z; blue : Z }.

(** The digit character of a value below 16, lower case. *)
Definition hex_char (d : Z) : ascii :=
  if d <? 10 then ascii_of_N (Z.to_N (48 + d)) else ascii_of_N (Z.to_N (87 + d)).

(** The digits of a non-negative [n] in [base], most significant first:
    the digits [str(n)] and the format codes [d] and [x] write. *)
Fixpoint radix_go (base : Z) (fuel : nat) (n : Z) (acc : string) : string :=
  match fuel with
  | O => acc
  | S fuel' =>
      let acc' := String (hex_char (n mod base)) acc in
      if n / base =? 0 then acc' else radix_go base fuel' (n / base) acc'
  end.

Definition hex_of (n : Z) : string := radix_go 16 (S (Z.to_nat (Z.log2 n))) n "".

(** ["{:02x}".format(n)]: zero-padded to two characters, the sign counting
    as one of them. *)
Definition format_02x (n : Z) : string :=
  if n <? 0 then "-" ++ hex_of (- n)
  else
    let h := hex_of n in
    if (String.length h <? 2)%nat then "0" ++ h else h.

(** ["#{:02x}{:02x}{:02x}".format(r, g, b)] *)
Definition format_hex (r g b : Z) : string :=
  "#" ++ format_02x r ++ format_02x g ++ format_02x b.

Definition hex_key (c : color) : string := format_hex (red c) (green c) (blue c).

Record merge_state : Type := MergeState {
  final_colors : list color;
  seen_hex : gset string;
  seen_names : gset string;
  added_count : nat
}.

Definition initial_state : merge_state := MergeState [] ∅ ∅ O.

(** The body of "Keep existing colors (Priority)". *)
Definition keep_existing (st : merge_state) (c : color) : merge_state :=
  MergeState (final_colors st ++ [c])
             ({[ hex_key c ]} ∪ seen_hex st)
             ({[ Str.lower (name c) ]} ∪ seen_names st)
             (added_count st).

Definition seed (existing : list color) : merge_state :=
  fold_left keep_existing existing initial_state.

(** [hex_val in seen_hex]: the set holds strings only; a list or a dict is
    unhashable and the test raises [TypeError]. *)
Definition in_seen_hex (hex_val : json) (seen : gset string) : outcome bool :=
  match hex_val with
  | JStr h => Ok (bool_decide (h ∈ seen))
  | JList _ | JDict _ => Raise TypeError
  | _ => Ok false
  end.

(** The body of "Add new colors".  [name.title()] needs a [str]; the bare
    [except] swallows whatever [hex_to_rgb] raises, also the [AttributeError]
    of a [hex_val] that has no [lstrip]. *)
Definition add_new (st : merge_state) (item : raw_record) : outcome merge_state :=
  match rec_name item with
  | JStr name =>
      let clean_name := Str.title name in
      dup ← in_seen_hex (rec_hex item) (seen_hex st);
      if dup : bool then Ok st
      else if bool_decide (Str.lower clean_name ∈ seen_names st) then Ok st
      else
        match rec_hex item with
        | JStr hex_val =>
            match hex_to_rgb hex_val with
            | Ok (r, g, b) =>
                Ok (MergeState (final_colors st ++ [Color clean_name r g b])
                               ({[ hex_val ]} ∪ seen_hex st)
                               ({[ Str.lower clean_name ]} ∪ seen_names st)
                               (S (added_count st)))
            | Raise _ => Ok st
            end
        | _ => Ok st
        end
  | _ => Raise AttributeError
  end.

Fixpoint add_all (st : merge_state) (parsed : list raw_record) : outcome merge_state :=
  match parsed with
  | [] => Ok st
  | item :: rest => st' ← add_new st item; add_all st' rest
  end.

(** Step 3 of [main], from the existing tuples and [parsed_new_colors] to
    [final_colors] and [added_count]. *)
Definition merge (existing : list color) (parsed : list raw_record)
  : outcome (list color * nat) :=
  st ← add_all (seed existing) parsed;
  Ok (final_colors st, added_count st).

(** ** Writing the catalog: step 4 of [main] *)

Definition dquote : ascii := "034"%char.
Definition newline : ascii := "010"%char.

(** [str(n)], which is what an f-string writes for an [int]. *)
Definition decimal_of (n : Z) : string := radix_go 10 (S (Z.to_nat (Z.log2 n))) n "".

Definition str_of_int (n : Z) : string :=
  if n <? 0 then "-" ++ decimal_of (- n) else decimal_of n.

(** [s.replace(old, new)] for a one-character [old]. *)
Fixpoint replace (old : ascii) (new : string) (s : string) : string :=
  match s with
  | EmptyString => EmptyString
  | String c t =>
      if Ascii.eqb c old then new ++ replace old new t
      else String c (replace old new t)
  end.

(** [sep.join(items)] *)
Fixpoint join (sep : string) (items : list string) : string :=
  match items with
  | [] => ""
  | [x] => x
  | x :: rest => x ++ sep ++ join sep rest
  end.

Definition header : string :=
"package com.alexdremov.notate.util

import android.graphics.Color
import kotlin.math.pow
import kotlin.math.sqrt

object ColorNamer {

    data class NamedColor(val name: String, val r: Int, val g: Int, val b: Int) {
        val colorInt: Int = Color.rgb(r, g, b)
    }

    // A curated list of colors for natural language description.
    // Sources: Standard Web Colors, Material Design, Presets, XKCD, and Color-Name-Lists.
    private val colorList = listOf(
".

Definition footer : string :=
"    )

    /**
     * Finds the closest natural language name for the given color using Euclidean distance in RGB space.
     * @param color The input color.
     * @return The name of the closest color in the curated list.
     */
    fun getColorName(color: Int): String {
        val r = Color.red(color)
        val g = Color.green(color)
        val b = Color.blue(color)

        var minDistance = Double.MAX_VALUE
        var closestColorName = " ++ String dquote "Unknown" ++ String dquote "

        for (namedColor in colorList) {
            val distance = calculateDistance(r, g, b, namedColor.r, namedColor.g, namedColor.b)
            if (distance < minDistance) {
                minDistance = distance
                closestColorName = namedColor.name
            }
        }

        return closestColorName
    }

    private fun calculateDistance(r1: Int, g1: Int, b1: Int, r2: Int, g2: Int, b2: Int): Double {
        // Simple Euclidean distance
        return sqrt((r2 - r1).toDouble().pow(2) + (g2 - g1).toDouble().pow(2) + (b2 - b1).toDouble().pow(2))
    }
}
".

(** In the source the replacement text is a backslash and a double quote
    between single quotes: in Python that literal is the one-character string
    made of a double quote. *)
Definition safe_name (name : string) : string :=
  replace dquote (String dquote "") name.

Definition list_item (c : color) : string :=
  "        NamedColor(" ++ String dquote (safe_name (name c)) ++ String dquote ", "
    ++ str_of_int (red c) ++ ", " ++ str_of_int (green c) ++ ", "
    ++ str_of_int (blue c) ++ ")".

Definition serialize (final_colors : list color) : string :=
  header ++ join (String "," (String newline "")) (List.map list_item final_colors)
         ++ String newline "" ++ footer.

(** ** Reading the catalog back: step 2 of [main]

    The pattern is
    [NamedColor\s*\(\s*Q([^Q]+)Q\s*,\s*(\d+)\s*,\s*(\d+)\s*,\s*(\d+)\s*\)],
    where Q stands for the double quote.  Every repetition in it is followed by a token outside its class, so the
    greedy choice is the only one that can succeed and the matcher below,
    which never backtracks, finds the same match as the regex engine. *)

Module Re.

(** A literal prefix. *)
Fixpoint lit (p s : string) : option string :=
  match p with
  | EmptyString => Some s
  | String a p' =>
      match s with
      | String c t => if Ascii.eqb a c then lit p' t else None
      | EmptyString => None
      end
  end.

(** The longest prefix of characters satisfying [p], and the rest. *)
Fixpoint span (p : ascii -> bool) (s : string) : string * string :=
  match s with
  | EmptyString => (EmptyString, EmptyString)
  | String c t =>
      if p c then let '(a, b) := span p t in (String c a, b)
      else (EmptyString, s)
  end.

(** [\s*] *)
Definition spaces (s : string) : string := Str.drop_while Char.is_space s.

(** A class repeated once or more, captured. *)
Definition plus (p : ascii -> bool) (s : string) : option (string * string) :=
  match span p s with
  | (EmptyString, _) => None
  | (g, rest) => Some (g, rest)
  end.

Definition not_dquote (c : ascii) : bool := negb (Ascii.eqb c dquote).

(** [\s*,\s*(\d+)] *)
Definition comma_number (s : string) : option (string * string) :=
  s1 ← lit "," (spaces s);
  plus Char.is_digit (spaces s1).

(** The pattern, anchored at the start of [s]: the four groups and what
    follows the match. *)
Definition match_at (s : string) : option (string * string * string * string * string) :=
  s1 ← lit "NamedColor" s;
  s2 ← lit "(" (spaces s1);
  s3 ← lit (String dquote "") (spaces s2);
  '(name, s4) ← plus not_dquote s3;
  s5 ← lit (String dquote "") s4;
  '(r, s6) ← comma_number s5;
  '(g, s7) ← comma_number s6;
  '(b, s8) ← comma_number s7;
  s9 ← lit ")" (spaces s8);
  Some (name, r, g, b, s9).

(** [pattern.findall(content)]: the groups of the non-overlapping matches,
    leftmost first; after a match the scan resumes where the match ended.
    [skip] counts the characters of the current match still to be passed. *)
Fixpoint findall_from (skip : nat) (s : string) {struct s}
  : list (string * string * string * string) :=
  match s with
  | EmptyString => []
  | String _ t =>
      match skip with
      | S k => findall_from k t
      | O =>
          match match_at s with
          | Some (name, r, g, b, rest) =>
              (name, r, g, b)
                :: findall_from (String.length s - String.length rest - 1) t
          | None => findall_from 0 t
          end
      end
  end.

Definition findall (content : string) : list (string * string * string * string) :=
  findall_from 0 content.

End Re.

(** The first statement of the loop over [existing_matches]:
    [r, g, b = int(r), int(g), int(b)]. *)
Definition to_color (m : string * string * string * string) : outcome color :=
  let '(name, r, g, b) := m in
  r ← PyInt.int 10 r;
  g ← PyInt.int 10 g;
  b ← PyInt.int 10 b;
  Ok (Color name r g b).

Fixpoint to_colors (ms : list (string * string * string * string)) : outcome (list color) :=
  match ms with
  | [] => Ok []
  | m :: rest => c ← to_color m; cs ← to_colors rest; Ok (c :: cs)
  end.

(** The existing catalog, as the merge sees it. *)
Definition extract_existing (content : string) : outcome (list color) :=
  to_colors (Re.findall content).

(** [len(new_colors_data)], for the first message [main] prints. *)
Definition len (v : json) : outcome nat :=
  match v with
  | JStr s => Ok (String.length s)
  | JList items => Ok (length items)
  | JDict fields => Ok (length fields)
  | _ => Raise TypeError
  end.

(** [main] between the fetch and the write: the new content of the file. *)
Definition generate (new_colors_data : json) (content : string) : outcome string :=
  _ ← len new_colors_data;
  parsed_new_colors ← flatten new_colors_data;
  existing ← extract_existing content;
  '(final_colors, _) ← merge existing parsed_new_colors;
  Ok (serialize final_colors).

(** [get_more_colors]: the decoded body of the response, and the empty list
    when the request, the read or the decoding raises.  [response] is what
    the body of the [try] evaluates to. *)
Definition get_more_colors (response : outcome json) : json :=
  match response with
  | Ok data => data
  | Raise _ => JList []
  end.

(** [main], from the response and the content of the file to the content it
    writes back. *)
Definition main (response : outcome json) (content : string) : outcome string :=
  generate (get_more_colors response) content.

(** ** The matcher the footer defines: [getColorName]

    The query channels [r], [g], [b] are what [Color.red], [Color.green] and
    [Color.blue] extract from the colour, so they lie between 0 and 255.
    [calculateDistance] takes the square root of a sum of three squares in
    [Double]; for channels between 0 and 255 the sum is an integer below
    2^18, computed exactly, and the correctly rounded square root is strictly
    increasing on such integers.  So [distance < minDistance] is decided by
    the sums of squares, which is what the model compares.  [None] stands for
    the initial [Double.MAX_VALUE], above every distance. *)

Definition distance_squared (r1 g1 b1 r2 g2 b2 : Z) : Z :=
  (r2 - r1) ^ 2 + (g2 - g1) ^ 2 + (b2 - b1) ^ 2.

Definition closer (distance : Z) (minDistance : option Z) : bool :=
  match minDistance with
  | None => true
  | Some m => distance <? m
  end.

Fixpoint closest_from (r g b : Z) (colorList : list color)
    (minDistance : option Z) (closestColorName : string) : string :=
  match colorList with
  | [] => closestColorName
  | namedColor :: rest =>
      let distance :=
        distance_squared r g b (red namedColor) (green namedColor) (blue namedColor) in
      if closer distance minDistance
      then closest_from r g b rest (Some distance) (name namedColor)
      else closest_from r g b rest minDistance closestColorName
  end.

Definition getColorName (colorList : list color) (r g b : Z) : string :=
  closest_from r g b colorList None "Unknown".

(** * Vocabulary of the properties *)

(** ** Steps of the merge *)

(** One external record either leaves the state alone or appends one entry,
    named by the title-cased name and coloured by [hex_to_rgb], and records
    the raw hex string and the lower-cased name. *)
Inductive step_result (st : merge_state) (item : raw_record) : merge_state -> Prop :=
  | step_skip : step_result st item st
  | step_admit raw_name hex_val r g b :
      rec_name item = JStr raw_name ->
      rec_hex item = JStr hex_val ->
      hex_val ∉ seen_hex st ->
      Str.lower (Str.title raw_name) ∉ seen_names st ->
      hex_to_rgb hex_val = Ok (r, g, b) ->
      step_result st item
        (MergeState (final_colors st ++ [Color (Str.title raw_name) r g b])%list
                    ({[ hex_val ]} ∪ seen_hex st)
                    ({[ Str.lower (Str.title raw_name) ]} ∪ seen_names st)
                    (S (added_count st))).

(** A record makes the run abort exactly when its name is not a string or
    its hex value cannot be hashed. *)
Definition aborts (item : raw_record) : Prop :=
  (forall s, rec_name item ≠ JStr s)
  \/ (exists l, rec_hex item = JList l) \/ (exists f, rec_hex item = JDict f).

(** An entry admitted from [parsed]: some record with a string name and a
    string hex value gave it its title-cased name and its channels. *)
Definition admitted_from (parsed : list raw_record) (c : color) : Prop :=
  exists item raw_name hex_val,
    item ∈ parsed
    /\ rec_name item = JStr raw_name
    /\ rec_hex item = JStr hex_val
    /\ name c = Str.title raw_name
    /\ hex_to_rgb hex_val = Ok (red c, green c, blue c).

(** Channels within a byte. *)
Definition in_range (c : color) : Prop :=
  0 <= red c <= 255 /\ 0 <= green c <= 255 /\ 0 <= blue c <= 255.

(** ** Documents *)

Definition is_dict (v : json) : bool :=
  match v with
  | JDict _ => true
  | _ => false
  end.

(** The record a list element yields, when both fields pass the truth test. *)
Definition kept (fields : list (string * json)) : bool :=
  truthy (dict_get fields "name") && truthy (dict_get fields "hex").

Definition record_of (fields : list (string * json)) : raw_record :=
  RawRecord (dict_get fields "name") (dict_get fields "hex").

(** Empty or made of whitespace only. *)
Definition blank (s : string) : bool := Str.forallb Char.is_space s.

(** ** Hexadecimal spellings *)

(** Checking a property of characters on all 256 of them. *)
Definition all_ascii : list ascii := List.map ascii_of_nat (seq 0 256).

Definition is_hex_digit (c : ascii) : bool :=
  Char.is_digit c || Char.between 97 102 c || Char.between 65 70 c.

Definition hex_digit_value (c : ascii) : Z := default 0 (Char.digit_value c).

(** The base-16 value of a two-character slice. *)
Definition byte_value (s : string) : Z :=
  match s with
  | String a (String b EmptyString) => 16 * hex_digit_value a + hex_digit_value b
  | _ => 0
  end.

Definition int16_pair_ok (a b : ascii) : bool :=
  implb (is_hex_digit a && is_hex_digit b)
    match PyInt.int 16 (String a (String b "")) with
    | Ok v => (v =? 16 * hex_digit_value a + hex_digit_value b) && (0 <=? v) && (v <=? 255)
    | Raise _ => false
    end.



(** The spelling [keep_existing] gives a key: [#] and six lower-case
    hexadecimal digits. *)
Definition is_lower_hex (c : ascii) : bool :=
  Char.is_digit c || Char.between 97 102 c.

Definition is_canonical (hex_val : string) : bool :=
  match hex_val with
  | String "#" digits =>
      Nat.eqb (String.length digits) 6 && Str.forallb is_lower_hex digits
  | _ => false
  end.

Definition format_pair_ok (a b : ascii) : bool :=
  implb (is_lower_hex a && is_lower_hex b)
        (String.eqb (format_02x (byte_value (String a (String b ""))))
                    (String a (String b ""))
         && is_hex_digit a && is_hex_digit b && negb (Ascii.eqb a "#")).

Definition canonical_hex (item : raw_record) : Prop :=
  forall hex_val, rec_hex item = JStr hex_val -> is_canonical hex_val = true.

(** The seen set holds the key of every entry, and no key twice. *)
Definition keys_consistent (st : merge_state) : Prop :=
  seen_hex st = list_to_set (hex_key <$> final_colors st)
  /\ NoDup (hex_key <$> final_colors st).

(** The key of the set of names: [name.lower()]. *)
Definition lower_name (c : color) : string := Str.lower (name c).

(** The set of names holds the lower-cased name of every entry. *)
Definition names_consistent (st : merge_state) : Prop :=
  seen_names st = list_to_set (lower_name <$> final_colors st).

(** ** Title-casing *)

(** The policy as the spec words it: words are separated by whitespace, the
    first character of a word is upper-cased and the others lower-cased. *)
Fixpoint word_title_from (at_word_start : bool) (s : string) : string :=
  match s with
  | EmptyString => EmptyString
  | String c t =>
      if Char.is_space c then String c (word_title_from true t)
      else String (if at_word_start then Char.to_upper c else Char.to_lower c)
                  (word_title_from false t)
  end.

Definition word_title (s : string) : string := word_title_from true s.

(** Position [i] starts a run of letters: it is the first position, or the
    character before it is not a letter. *)
Definition starts_run (s : string) (i : nat) : bool :=
  match i with
  | O => true
  | S j =>
      match String.get j s with
      | Some p => negb (Char.is_cased p)
      | None => true
      end
  end.

(** ** Distances *)

Definition distance2 (r g b : Z) (c : color) : Z :=
  distance_squared r g b (red c) (green c) (blue c).

(** The distance of the source, as a real number. *)
Definition euclidean (r g b : Z) (c : color) : R := sqrt (IZR (distance2 r g b c)).

(** Entry [c], at position [i], is the first of the nearest entries. *)
Definition first_nearest (r g b : Z) (colorList : list color) (i : nat) (c : color) : Prop :=
  colorList !! i = Some c
  /\ (forall c', c' ∈ colorList -> distance2 r g b c <= distance2 r g b c')
  /\ (forall j c', (j < i)%nat -> colorList !! j = Some c' ->
                   distance2 r g b c < distance2 r g b c').

(** ** The written file *)

(** The value of a string of decimal digits, most significant first. *)
Fixpoint digits_value (s : string) (acc : Z) : Z :=
  match s with
  | EmptyString => acc
  | String c t => digits_value t (acc * 10 + hex_digit_value c)
  end.

Definition is_number (s : string) : Prop :=
  s ≠ "" /\ Str.forallb Char.is_digit s = true.

Definition digit_facts (c : ascii) : bool :=
  implb (Char.is_digit c)
        (negb (Char.is_c_space c) && negb (Char.is_space c)
         && negb (Ascii.eqb c "_")
         && match Char.digit_value c with
            | Some d => (0 <=? d) && (d <? 10)
            | None => false
            end).

(** The text of an entry after its indentation, followed by [rest]. *)
Definition entry_text (entry_name r g b rest : string) : string :=
  "NamedColor("
    ++ String dquote
         (entry_name ++ String dquote
                          (", " ++ r ++ ", " ++ g ++ ", " ++ b ++ String ")" rest)).

(** The groups the pattern captures on the line of an entry. *)
Definition groups_of (c : color) : string * string * string * string :=
  (name c, str_of_int (red c), str_of_int (green c), str_of_int (blue c)).

(** An entry the pattern can read back: a name that is not empty and holds no
    double quote, and channels that are not negative. *)
Definition readable (c : color) : Prop :=
  name c ≠ "" /\ Str.forallb Re.not_dquote (name c) = true
  /\ 0 <= red c /\ 0 <= green c /\ 0 <= blue c.

(** ** Checks on short strings and single characters *)

Definition outcome_eqb (x y : outcome Z) : bool :=
  match x, y with
  | Ok v, Ok w => v =? w
  | Raise _, Raise _ => true
  | _, _ => false
  end.

Definition short_int16_ok (s : string) : bool :=
  outcome_eqb (PyInt.int 16 (Str.lower s)) (PyInt.int 16 s)
  && match PyInt.int 16 s with
     | Ok v => (-15 <=? v) && (v <=? 255)
     | Raise _ => true
     end.

Definition format_byte_ok (n : Z) : bool :=
  match format_02x n with
  | String a (String b EmptyString) =>
      is_lower_hex a && is_lower_hex b
      && (byte_value (String a (String b "")) =? n)
  | _ => false
  end.

Definition casing_ok (c : ascii) : bool :=
  Ascii.eqb (Char.to_lower (Char.to_upper c)) (Char.to_lower c)
  && Ascii.eqb (Char.to_lower (Char.to_lower c)) (Char.to_lower c)
  && Ascii.eqb (Char.to_upper (Char.to_upper c)) (Char.to_upper c)
  && Bool.eqb (Char.is_cased (Char.to_upper c)) (Char.is_cased c)
  && Bool.eqb (Char.is_cased (Char.to_lower c)) (Char.is_cased c).

(** ** Admission and extraction *)

(** Record [item] is the one entry [c] was admitted from. *)
Definition admits (item : raw_record) (c : color) : Prop :=
  exists raw_name hex_val,
    rec_name item = JStr raw_name
    /\ rec_hex item = JStr hex_val
    /\ name c = Str.title raw_name
    /\ hex_to_rgb hex_val = Ok (red c, green c, blue c).

(** The set of names holds the name of every entry, and no name twice. *)
Definition names_unique (st : merge_state) : Prop :=
  names_consistent st /\ NoDup (lower_name <$> final_colors st).

(** Groups the pattern can capture: a name that is not empty and holds no
    double quote, and three numerals. *)
Definition captured (m : string * string * string * string) : Prop :=
  let '(entry_name, r, g, b) := m in
  entry_name ≠ "" /\ Str.forallb Re.not_dquote entry_name = true
  /\ is_number r /\ is_number g /\ is_number b.

Definition is_blank (s : string) : Prop := Str.forallb Char.is_space s = true.

(** The text of an entry with whitespace [w1] ... [w9] wherever the pattern
    allows some, followed by [rest]. *)
Definition spaced_entry_text (w1 w2 w3 w4 w5 w6 w7 w8 w9 entry_name r g b rest : string)
  : string :=
  "NamedColor" ++ w1 ++ "(" ++ w2
    ++ String dquote
         (entry_name
            ++ String dquote
                 (w3 ++ "," ++ w4 ++ r ++ w5 ++ "," ++ w6 ++ g ++ w7 ++ ","
                     ++ w8 ++ b ++ w9 ++ String ")" rest)).

(** A repetition of class [p] ends before [t]. *)
Definition stops (p : ascii -> bool) (t : string) : Prop :=
  match t with
  | EmptyString => True
  | String c _ => p c = false
  end.

Definition same_channels (r g b : Z) (c : color) : Prop :=
  red c = r /\ green c = g /\ blue c = b.

(** ** Documents the run completes on *)





(** * Properties *)

Local Open Scope list_scope.

#[local] Arguments String.append !_ _ / : simpl nomatch.

(** ** The merge: what a run can change *)

Section Merge.

Implicit Types (st : merge_state) (c : color) (item : raw_record).

Lemma seed_from_final st existing :
  final_colors (fold_left keep_existing existing st) = final_colors st ++ existing.
Proof.
  revert st. induction existing as [|c existing IH]; intros st; cbn.
  - by rewrite app_nil_r.
  - rewrite IH. cbn. by rewrite <- app_assoc.
Qed.

Lemma seed_from_added st existing :
  added_count (fold_left keep_existing existing st) = added_count st.
Proof.
  revert st. induction existing as [|c existing IH]; intros st; cbn; [done|].
  by rewrite IH.
Qed.

Lemma seed_final existing : final_colors (seed existing) = existing.
Proof. unfold seed. by rewrite seed_from_final. Qed.

Lemma seed_added existing : added_count (seed existing) = O.
Proof. unfold seed. by rewrite seed_from_added. Qed.

Lemma add_new_result st item st' :
  add_new st item = Ok st' -> step_result st item st'.
Proof.
  unfold add_new. intros H.
  destruct (rec_name item) as [| | | |raw_name| |] eqn:En; try discriminate.
  destruct (in_seen_hex (rec_hex item) (seen_hex st)) as [dup|] eqn:Ed;
    cbn [mbind outcome_bind] in H; [|discriminate].
  destruct dup; [injection H as <-; constructor|].
  case_bool_decide as Hn; [injection H as <-; constructor|].
  destruct (rec_hex item) as [| | | |hex_val| |] eqn:Eh;
    try (injection H as <-; constructor).
  cbn in Ed. injection Ed as Ed. apply bool_decide_eq_false in Ed.
  destruct (hex_to_rgb hex_val) as [[[r g] b]|] eqn:Ergb;
    [|injection H as <-; constructor].
  injection H as <-. by eapply step_admit.
Qed.

Lemma add_new_raise st item e : add_new st item = Raise e -> aborts item.
Proof.
  unfold add_new, aborts. intros H.
  destruct (rec_name item) eqn:En; try (left; congruence).
  right. destruct (rec_hex item) eqn:Eh; cbn in H; eauto;
    repeat (case_bool_decide || case_match || discriminate).
Qed.

Lemma add_all_raise st parsed e :
  add_all st parsed = Raise e -> exists item, item ∈ parsed /\ aborts item.
Proof.
  revert st. induction parsed as [|item rest IH]; intros st H; cbn in H; [done|].
  destruct (add_new st item) as [st'|e'] eqn:E; cbn in H.
  - destruct (IH _ H) as (i & Hi & Ha). exists i. split; [by right|done].
  - exists item. split; [by left|]. by eapply add_new_raise.
Qed.

Lemma add_all_appends st parsed st' :
  add_all st parsed = Ok st' ->
  exists added,
    final_colors st' = final_colors st ++ added
    /\ added_count st' = (added_count st + length added)%nat
    /\ Forall (admitted_from parsed) added.
Proof.
  revert st. induction parsed as [|item rest IH]; intros st H; cbn in H.
  - injection H as <-. exists []. by rewrite app_nil_r, Nat.add_0_r.
  - destruct (add_new st item) as [st1|] eqn:E; cbn in H; [|done].
    destruct (IH _ H) as (added & Hf & Hn & Ha).
    assert (Ha' : Forall (admitted_from (item :: rest)) added).
    { eapply Forall_impl; [exact Ha|].
      intros c (i & rn & hv & Hi & ?). exists i, rn, hv. split; [by right|done]. }
    destruct (add_new_result _ _ _ E).
    + by exists added.
    + eexists (_ :: added). cbn in *. rewrite Hf, Hn, <- app_assoc.
      split; [done|]. split; [lia|]. constructor; [|done].
      exists item, raw_name, hex_val. split; [by left|done].
Qed.

End Merge.

(** C9. Added-count accounting: whenever [merge] returns, the count it
    returns is the length of the produced catalog minus the length of the
    existing one, and the existing entries are a verbatim prefix of the
    produced catalog; and [merge] returns unless some record has a name that
    is not a string or a hex value that cannot be hashed. *)
Theorem merge_added_count_accounting (existing : list color) (parsed : list raw_record) :
  match merge existing parsed with
  | Ok (final, added) =>
      Z.of_nat added = Z.of_nat (length final) - Z.of_nat (length existing)
      /\ existing `prefix_of` final
  | Raise _ => exists item, item ∈ parsed /\ aborts item
  end.
Proof.
  unfold merge. destruct (add_all (seed existing) parsed) as [st|e] eqn:E; cbn.
  - destruct (add_all_appends _ _ _ E) as (added & Hf & Hn & _).
    rewrite seed_final in Hf. rewrite seed_added in Hn.
    rewrite Hf, Hn, length_app. split; [lia|]. by exists added.
  - by eapply add_all_raise.
Qed.

(** ** Flattening *)

Lemma flatten_list_non_mapping items parsed :
  Exists (fun v => is_dict v = false) items ->
  flatten_list items parsed = Raise AttributeError.
Proof.
  intros H. revert parsed.
  induction H as [v rest Hv|v rest _ IH]; intros parsed.
  - by destruct v.
  - destruct v; try done. cbn. case_match; apply IH.
Qed.

(** C10. A list document with an element that is not a mapping makes the
    flattening raise, and the run ends there: nothing is merged and no new
    content is produced. *)
Theorem flatten_non_mapping_aborts (items : list json) :
  Exists (fun v => is_dict v = false) items ->
  flatten (JList items) = Raise AttributeError
  /\ forall content, generate (JList items) content = Raise AttributeError.
Proof.
  intros H. pose proof (flatten_list_non_mapping items [] H) as E.
  split; [done|]. intros content. unfold generate. cbn [len flatten mbind outcome_bind].
  by rewrite E.
Qed.

Lemma flatten_non_mapping_aborts_witness :
  flatten (JList [JDict [("name", JStr "Teal"); ("hex", JStr "#008080")]; JStr "#008080"])
    = Raise AttributeError
  /\ forall content,
       generate (JList [JDict [("name", JStr "Teal"); ("hex", JStr "#008080")]; JStr "#008080"])
                content = Raise AttributeError.
Proof.
  apply flatten_non_mapping_aborts.
  apply Exists_cons_tl, Exists_cons_hd. reflexivity.
Defined.

(** ** Hex validation *)

Lemma in_all_ascii (c : ascii) : In c all_ascii.
Proof.
  unfold all_ascii. rewrite <- (ascii_nat_embedding c).
  apply in_map, in_seq. pose proof (nat_ascii_bounded c). lia.
Qed.

Lemma forall_ascii (P : ascii -> bool) :
  List.forallb P all_ascii = true -> forall c, P c = true.
Proof. intros H c. eapply forallb_forall in H; [exact H|apply in_all_ascii]. Qed.

Lemma forall_ascii2 (P : ascii -> ascii -> bool) :
  List.forallb (fun a => List.forallb (P a) all_ascii) all_ascii = true ->
  forall a b, P a b = true.
Proof.
  intros H a b. apply (forall_ascii (P a)). revert a.
  apply (forall_ascii (fun a => List.forallb (P a) all_ascii)), H.
Qed.

Lemma int16_pair (a b : ascii) :
  is_hex_digit a = true -> is_hex_digit b = true ->
  PyInt.int 16 (String a (String b "")) = Ok (byte_value (String a (String b "")))
  /\ 0 <= byte_value (String a (String b "")) <= 255.
Proof.
  intros Ha Hb.
  assert (H : int16_pair_ok a b = true).
  { clear Ha Hb. revert a b. apply forall_ascii2. vm_compute. reflexivity. }
  unfold int16_pair_ok in H. rewrite Ha, Hb in H. cbn [andb implb] in H.
  destruct (PyInt.int 16 _) as [v|]; [|done]. cbn [byte_value]. split; [f_equal|]; lia.
Qed.

Lemma int_raises_value_error base s e : PyInt.int base s = Raise e -> e = ValueError.
Proof. unfold PyInt.int. intros H. repeat case_match; congruence. Qed.

Lemma hex_to_rgb_raises_value_error s e : hex_to_rgb s = Raise e -> e = ValueError.
Proof.
  unfold hex_to_rgb. intros H.
  repeat match type of H with
  | context [mbind _ ?m] =>
      let E := fresh "E" in
      destruct m eqn:E; cbn [mbind outcome_bind] in H;
      [|injection H as <-; by eapply int_raises_value_error]
  end.
  done.
Qed.


Lemma hex_to_rgb_accepts (digits : string) :
  (6 <= String.length digits)%nat ->
  Str.forallb is_hex_digit (Str.slice 0 6 digits) = true ->
  (r ← PyInt.int 16 (Str.slice 0 2 digits);
   g ← PyInt.int 16 (Str.slice 2 2 digits);
   b ← PyInt.int 16 (Str.slice 4 2 digits);
   Ok (r, g, b))
  = Ok (byte_value (Str.slice 0 2 digits),
        byte_value (Str.slice 2 2 digits),
        byte_value (Str.slice 4 2 digits))
  /\ 0 <= byte_value (Str.slice 0 2 digits) <= 255
  /\ 0 <= byte_value (Str.slice 2 2 digits) <= 255
  /\ 0 <= byte_value (Str.slice 4 2 digits) <= 255.
Proof.
  intros Hlen Hhex.
  destruct digits as [|c0 [|c1 [|c2 [|c3 [|c4 [|c5 rest]]]]]]; cbn in Hlen; try lia.
  cbn in Hhex. repeat (apply andb_prop in Hhex as [? Hhex]).
  cbn [Str.slice String.substring].
  replace (String.substring 0 0 rest) with EmptyString by (by destruct rest).
  destruct (int16_pair c0 c1) as [E0 ?]; [done..|].
  destruct (int16_pair c2 c3) as [E2 ?]; [done..|].
  destruct (int16_pair c4 c5) as [E4 ?]; [done..|].
  rewrite E0. cbn [mbind outcome_bind]. rewrite E2. cbn [mbind outcome_bind].
  rewrite E4. done.
Qed.




(** ** Title-casing *)

(** C8, as stated, fails: the letter after an apostrophe is upper-cased. *)
Lemma title_casing_counterexample :
  ~ (forall raw_name, Str.title raw_name = word_title raw_name).
Proof.
  intros H. specialize (H "don't"). vm_compute in H. discriminate.
Qed.

Lemma title_from_length prev s :
  String.length (Str.title_from prev s) = String.length s.
Proof. revert prev. induction s as [|c s IH]; intros prev; cbn; [done|]. by rewrite IH. Qed.

Lemma title_from_get prev s i c :
  String.get i s = Some c ->
  String.get i (Str.title_from prev s)
  = Some (if match i with O => negb prev | S _ => starts_run s i end
          then Char.to_upper c else Char.to_lower c).
Proof.
  revert prev i. induction s as [|a s IH]; intros prev i H; [by destruct i|].
  destruct i as [|i]; cbn in H |- *.
  - injection H as ->. by destruct prev.
  - rewrite (IH _ _ H). destruct i as [|i]; cbn; [|done].
    by destruct (Char.is_cased a).
Qed.

Lemma cased_not_space c : Char.is_cased c = true -> Char.is_space c = false.
Proof.
  intros H.
  assert (F : implb (Char.is_cased c) (negb (Char.is_space c)) = true).
  { clear H. revert c. apply forall_ascii. vm_compute. reflexivity. }
  rewrite H in F. by destruct (Char.is_space c).
Qed.

Lemma uncased_fixed c :
  Char.is_cased c = false -> Char.to_upper c = c /\ Char.to_lower c = c.
Proof.
  unfold Char.is_cased, Char.to_upper, Char.to_lower.
  intros [-> ->]%orb_false_elim. done.
Qed.

Lemma title_from_letters_and_spaces prev s :
  Str.forallb (fun c => Char.is_cased c || Char.is_space c) s = true ->
  Str.title_from prev s = word_title_from (negb prev) s.
Proof.
  revert prev. induction s as [|c s IH]; intros prev H; [done|].
  cbn in H. apply andb_prop in H as [Hc H]. cbn.
  destruct (Char.is_cased c) eqn:Ec.
  - rewrite (cased_not_space _ Ec), (IH _ H). by destruct prev.
  - cbn in Hc. rewrite Hc, (IH _ H).
    destruct (uncased_fixed _ Ec) as [-> ->]. by destruct prev.
Qed.

(** C8, amended. On a name of ASCII characters [title] keeps the length; at
    every position it upper-cases the character when it starts a run of
    letters (no letter before it) and lower-cases it otherwise, so a letter
    after an apostrophe, a hyphen or a digit is upper-cased; on names made of
    letters and whitespace only this is the whitespace-separated-word
    policy. *)
Theorem title_casing_policy (raw_name : string) :
  Str.is_ascii raw_name = true ->
  String.length (Str.title raw_name) = String.length raw_name
  /\ (forall i c,
        String.get i raw_name = Some c ->
        String.get i (Str.title raw_name)
        = Some (if starts_run raw_name i then Char.to_upper c else Char.to_lower c))
  /\ (Str.forallb (fun c => Char.is_cased c || Char.is_space c) raw_name = true ->
      Str.title raw_name = word_title raw_name).
Proof.
  intros _. split; [apply title_from_length|split].
  - intros i c H. unfold Str.title. rewrite (title_from_get _ _ _ _ H). by destruct i.
  - apply title_from_letters_and_spaces.
Qed.

Lemma title_casing_policy_witness :
  String.length (Str.title "jack-o'lantern 3d") = String.length "jack-o'lantern 3d"
  /\ (forall i c,
        String.get i "jack-o'lantern 3d" = Some c ->
        String.get i (Str.title "jack-o'lantern 3d")
        = Some (if starts_run "jack-o'lantern 3d" i then Char.to_upper c else Char.to_lower c))
  /\ (Str.forallb (fun c => Char.is_cased c || Char.is_space c) "jack-o'lantern 3d" = true ->
      Str.title "jack-o'lantern 3d" = word_title "jack-o'lantern 3d").
Proof. apply title_casing_policy. reflexivity. Defined.

(** ** The matcher *)

Section Matcher.

Variables r g b : Z.

Implicit Types (c : color).

Lemma distance2_nonneg c : 0 <= distance2 r g b c.
Proof. unfold distance2, distance_squared. nia. Qed.

Lemma euclidean_le c c' :
  distance2 r g b c <= distance2 r g b c' -> (euclidean r g b c <= euclidean r g b c')%R.
Proof. intros H. by apply sqrt_le_1_alt, IZR_le. Qed.

Lemma euclidean_lt c c' :
  distance2 r g b c < distance2 r g b c' -> (euclidean r g b c < euclidean r g b c')%R.
Proof.
  intros H. apply sqrt_lt_1_alt. split; [|by apply IZR_lt].
  apply (IZR_le 0), distance2_nonneg.
Qed.

Lemma closest_from_first_nearest rest :
  forall seen i c,
    first_nearest r g b seen i c ->
    exists i' c',
      first_nearest r g b (seen ++ rest) i' c'
      /\ closest_from r g b rest (Some (distance2 r g b c)) (name c) = name c'.
Proof.
  induction rest as [|x rest IH]; intros seen i c (Hi & Hmin & Hfirst).
  { exists i, c. by rewrite app_nil_r. }
  cbn [closest_from closer]. fold (distance2 r g b x).
  assert (Hlt : (i < length seen)%nat) by by eapply lookup_lt_Some.
  destruct (Z.ltb_spec (distance2 r g b x) (distance2 r g b c)) as [Hx|Hx].
  - destruct (IH (seen ++ [x]) (length seen) x) as (i' & c' & Hn & Hr).
    + split; [|split].
      * by rewrite lookup_app_r, Nat.sub_diag.
      * intros c' [Hc'| ->%list_elem_of_singleton]%elem_of_app; [|lia].
        specialize (Hmin _ Hc'). lia.
      * intros j c' Hj Hc'. rewrite lookup_app_l in Hc' by done.
        apply list_elem_of_lookup_2, Hmin in Hc'. lia.
    + exists i', c'. by rewrite <- app_assoc in Hn.
  - destruct (IH (seen ++ [x]) i c) as (i' & c' & Hn & Hr).
    + split; [|split].
      * by rewrite lookup_app_l.
      * intros c' [Hc'| ->%list_elem_of_singleton]%elem_of_app; [by apply Hmin|lia].
      * intros j c' Hj Hc'. rewrite lookup_app_l in Hc' by lia. by eapply Hfirst.
    + exists i', c'. by rewrite <- app_assoc in Hn.
Qed.

End Matcher.

(** C7, as stated, fails: a catalog whose nearest entry is itself named
    Unknown returns that name without being empty. *)
Lemma matcher_unknown_counterexample :
  ~ (forall colorList r g b, getColorName colorList r g b = "Unknown" <-> colorList = []).
Proof.
  intros H. discriminate (proj1 (H [Color "Unknown" 128 128 128] 0 0 0) eq_refl).
Qed.

(** C7, amended. On an empty catalog [getColorName] returns Unknown.  On a
    non-empty catalog of entries with channels between 0 and 255 it returns
    the name of an entry whose Euclidean distance to the query is minimal, and
    of the nearest entries the first in catalog order: every entry before it
    is strictly farther.  (So it returns Unknown on a non-empty catalog only
    when that entry is named so.) *)
Theorem getColorName_nearest (colorList : list color) (r g b : Z) :
  getColorName [] r g b = "Unknown"
  /\ (colorList ≠ [] ->
      Forall in_range colorList ->
      0 <= r <= 255 -> 0 <= g <= 255 -> 0 <= b <= 255 ->
      exists i c,
        colorList !! i = Some c
        /\ getColorName colorList r g b = name c
        /\ (forall c', c' ∈ colorList -> (euclidean r g b c <= euclidean r g b c')%R)
        /\ (forall j c', (j < i)%nat -> colorList !! j = Some c' ->
                         (euclidean r g b c < euclidean r g b c')%R)).
Proof.
  split; [done|]. intros Hne _ _ _ _.
  destruct colorList as [|x rest]; [done|].
  destruct (closest_from_first_nearest r g b rest [x] 0 x) as (i & c & (Hi & Hmin & Hfirst) & Hr).
  { split; [done|split].
    - intros c' ->%list_elem_of_singleton. lia.
    - intros j c' Hj. lia. }
  exists i, c. split; [done|]. split; [exact Hr|]. split.
  - intros c' Hc'. by apply euclidean_le, Hmin.
  - intros j c' Hj Hc'. by eapply euclidean_lt, Hfirst.
Qed.

Lemma getColorName_nearest_witness :
  getColorName [] 250 10 10 = "Unknown"
  /\ exists i c,
       [Color "Red" 255 0 0; Color "Black" 0 0 0] !! i = Some c
       /\ getColorName [Color "Red" 255 0 0; Color "Black" 0 0 0] 250 10 10 = name c
       /\ (forall c', c' ∈ [Color "Red" 255 0 0; Color "Black" 0 0 0] ->
                      (euclidean 250 10 10 c <= euclidean 250 10 10 c')%R)
       /\ (forall j c', (j < i)%nat ->
                        [Color "Red" 255 0 0; Color "Black" 0 0 0] !! j = Some c' ->
                        (euclidean 250 10 10 c < euclidean 250 10 10 c')%R).
Proof.
  destruct (getColorName_nearest [Color "Red" 255 0 0; Color "Black" 0 0 0] 250 10 10)
    as [H0 H].
  split; [exact H0|]. apply H; [done| |lia..].
  repeat constructor; cbn; lia.
Defined.

(** ** Empty names and fields *)

(** C6, as stated, fails: a list record whose name is one space passes the
    truth test of the flattening and is admitted under that name. *)
Lemma empty_name_counterexample :
  ~ (forall data existing parsed final added,
       Forall (fun c => blank (name c) = false) existing ->
       flatten data = Ok parsed ->
       merge existing parsed = Ok (final, added) ->
       Forall (fun c => blank (name c) = false) final).
Proof.
  intros H.
  specialize (H (JList [JDict [("name", JStr " "); ("hex", JStr "#abcdef")]]) []
                [RawRecord (JStr " ") (JStr "#abcdef")]
                [Color " " 171 205 239] 1%nat).
  assert (F : Forall (fun c => blank (name c) = false) [Color " " 171 205 239]).
  { apply H; [constructor|reflexivity|vm_compute; reflexivity]. }
  apply Forall_inv in F. discriminate F.
Qed.

Lemma flatten_list_filters items parsed result :
  flatten_list items parsed = Ok result ->
  exists dicts,
    items = JDict <$> dicts
    /\ result = parsed ++ (record_of <$> List.filter kept dicts).
Proof.
  revert parsed. induction items as [|v items IH]; intros parsed H; cbn in H.
  - injection H as <-. exists []. by rewrite app_nil_r.
  - destruct v as [| | | | | |fields]; try discriminate.
    fold (kept fields) in H. fold (record_of fields) in H.
    destruct (kept fields) eqn:Ek; apply IH in H as (dicts & -> & ->);
      exists (fields :: dicts); cbn; rewrite Ek; [|done].
    by rewrite <- app_assoc.
Qed.

Lemma title_nonempty s : s ≠ "" -> Str.title s ≠ "".
Proof. by destruct s. Qed.

(** C6, amended. From a list document the flattening keeps, in order,
    exactly the records of the mappings whose name and hex are both present,
    non-null and non-empty.  Normalization has no empty-name failure and does
    not trim: the title-cased name is admitted as it is.  So a catalog merged
    from a list document into existing entries with non-empty names has no
    entry with an empty name. *)
Theorem list_records_keep_nonempty_names
    (items : list json) (existing : list color)
    (parsed : list raw_record) (final : list color) (added : nat) :
  flatten (JList items) = Ok parsed ->
  merge existing parsed = Ok (final, added) ->
  Forall (fun c => name c ≠ "") existing ->
  (exists dicts, items = JDict <$> dicts /\ parsed = record_of <$> List.filter kept dicts)
  /\ Forall (fun item => truthy (rec_name item) = true /\ truthy (rec_hex item) = true) parsed
  /\ Forall (fun c => name c ≠ "") final.
Proof.
  intros Hflat Hmerge Hex. cbn [flatten] in Hflat.
  apply flatten_list_filters in Hflat as (dicts & -> & ->). cbn [app] in *.
  assert (Htruthy : Forall (fun item => truthy (rec_name item) = true
                                        /\ truthy (rec_hex item) = true)
                           (record_of <$> List.filter kept dicts)).
  { apply Forall_fmap, Forall_forall. intros fields [_ Hk]%list_elem_of_In%filter_In.
    by apply andb_prop in Hk. }
  split; [by exists dicts|]. split; [done|].
  unfold merge in Hmerge.
  destruct (add_all (seed existing) _) as [st|] eqn:E; cbn in Hmerge; [|done].
  injection Hmerge as <- <-.
  destruct (add_all_appends _ _ _ E) as (new & -> & _ & Hnew).
  rewrite seed_final. apply Forall_app. split; [done|].
  eapply Forall_impl; [exact Hnew|].
  intros c (item & raw_name & hex_val & Hi & Hn & _ & -> & _).
  apply title_nonempty. intros ->.
  rewrite Forall_forall in Htruthy. destruct (Htruthy _ Hi) as [Ht _].
  by rewrite Hn in Ht.
Qed.

Lemma list_records_keep_nonempty_names_witness :
  (exists dicts,
     [JDict [("name", JStr ""); ("hex", JStr "#00ff00")];
      JDict [("name", JStr "teal"); ("hex", JStr "#008080")];
      JDict [("name", JStr "void")]]
     = JDict <$> dicts
     /\ [RawRecord (JStr "teal") (JStr "#008080")] = record_of <$> List.filter kept dicts)
  /\ Forall (fun item => truthy (rec_name item) = true /\ truthy (rec_hex item) = true)
            [RawRecord (JStr "teal") (JStr "#008080")]
  /\ Forall (fun c => name c ≠ "") [Color "Crimson" 220 20 60; Color "Teal" 0 128 128].
Proof.
  apply (list_records_keep_nonempty_names
           [JDict [("name", JStr ""); ("hex", JStr "#00ff00")];
            JDict [("name", JStr "teal"); ("hex", JStr "#008080")];
            JDict [("name", JStr "void")]]
           [Color "Crimson" 220 20 60]
           [RawRecord (JStr "teal") (JStr "#008080")]
           [Color "Crimson" 220 20 60; Color "Teal" 0 128 128] 1%nat).
  - reflexivity.
  - vm_compute. reflexivity.
  - repeat constructor. discriminate.
Defined.

(** ** Hex keys and the seen set *)

Lemma format_pair (a b : ascii) :
  is_lower_hex a = true -> is_lower_hex b = true ->
  format_02x (byte_value (String a (String b ""))) = String a (String b "")
  /\ is_hex_digit a = true /\ is_hex_digit b = true /\ Ascii.eqb a "#" = false.
Proof.
  intros Ha Hb.
  assert (H : format_pair_ok a b = true).
  { clear Ha Hb. revert a b. apply forall_ascii2. vm_compute. reflexivity. }
  unfold format_pair_ok in H. rewrite Ha, Hb in H. cbn [andb implb] in H.
  repeat (apply andb_prop in H as [H ?]).
  apply String.eqb_eq in H. split; [done|]. split; [done|]. split; [done|].
  by apply negb_true_iff.
Qed.

(** Parsing a canonical spelling and formatting the channels gives the
    spelling back. *)
Lemma canonical_roundtrip hex_val r g b :
  is_canonical hex_val = true ->
  hex_to_rgb hex_val = Ok (r, g, b) ->
  format_hex r g b = hex_val.
Proof.
  unfold is_canonical. intros Hc Hrgb.
  destruct hex_val as [|h digits]; [done|].
  destruct (Ascii.eqb_spec h "#") as [->|Hh];
    [|by repeat (case_match; try done); simplify_eq].
  apply andb_prop in Hc as [Hlen Hd]. apply Nat.eqb_eq in Hlen.
  destruct digits as [|c0 [|c1 [|c2 [|c3 [|c4 [|c5 [|]]]]]]]; try discriminate Hlen.
  cbn in Hd. repeat (apply andb_prop in Hd as [? Hd]).
  destruct (format_pair c0 c1) as (F0 & ? & ? & N0); [done..|].
  destruct (format_pair c2 c3) as (F2 & ? & ? & _); [done..|].
  destruct (format_pair c4 c5) as (F4 & ? & ? & _); [done..|].
  unfold hex_to_rgb in Hrgb. cbn [Str.lstrip] in Hrgb.
  change (Ascii.eqb "#" "#") with true in Hrgb. cbn match in Hrgb. rewrite N0 in Hrgb.
  destruct (hex_to_rgb_accepts
              (String c0 (String c1 (String c2 (String c3 (String c4 (String c5 "")))))))
    as [E _]; [cbn; lia|cbn; by repeat (apply andb_true_intro; split)|].
  rewrite E in Hrgb. injection Hrgb as <- <- <-.
  cbn [byte_value] in F0, F2, F4.
  unfold format_hex. cbn [Str.slice String.substring byte_value]. by rewrite F0, F2, F4.
Qed.

Section HexKeys.

Implicit Types (st : merge_state) (c : color) (item : raw_record).

Lemma seed_from_seen_hex st existing :
  seen_hex (fold_left keep_existing existing st)
  = list_to_set (hex_key <$> existing) ∪ seen_hex st.
Proof.
  revert st. induction existing as [|c existing IH]; intros st; cbn.
  - set_solver.
  - rewrite IH. cbn. set_solver.
Qed.

Lemma seed_keys_consistent existing :
  NoDup (hex_key <$> existing) -> keys_consistent (seed existing).
Proof.
  intros H. unfold keys_consistent. rewrite seed_final. split; [|done].
  unfold seed. rewrite seed_from_seen_hex. cbn. set_solver.
Qed.

Lemma add_new_keys_consistent st item st' :
  canonical_hex item ->
  keys_consistent st ->
  add_new st item = Ok st' ->
  keys_consistent st'.
Proof.
  intros Hcan [Hseen Hdup] H.
  destruct (add_new_result _ _ _ H) as [|raw_name hex_val r g b _ Hh Hfresh _ Hrgb]; [done|].
  pose proof (canonical_roundtrip _ _ _ _ (Hcan _ Hh) Hrgb) as Hkey.
  unfold keys_consistent. cbn [final_colors seen_hex].
  rewrite fmap_app. cbn [fmap list_fmap]. unfold hex_key at 2 4. cbn [red green blue].
  rewrite Hkey. split.
  - rewrite Hseen, list_to_set_app_L. set_solver.
  - apply NoDup_app. split; [done|]. split; [|apply NoDup_singleton].
    intros k Hk ->%list_elem_of_singleton. apply Hfresh. rewrite Hseen.
    by apply elem_of_list_to_set.
Qed.

Lemma add_all_keys_consistent st parsed st' :
  Forall canonical_hex parsed ->
  keys_consistent st ->
  add_all st parsed = Ok st' ->
  keys_consistent st'.
Proof.
  intros Hcan. revert st. induction Hcan as [|item rest Hi _ IH]; intros st Hst H; cbn in H.
  - by injection H as <-.
  - destruct (add_new st item) as [st1|] eqn:E; cbn in H; [|done].
    eapply IH; [|exact H]. by eapply add_new_keys_consistent.
Qed.

End HexKeys.




(** ** Priority and idempotence *)

Section SeenSets.

Implicit Types (st : merge_state) (c : color) (item : raw_record).

Lemma seed_from_seen_names st existing :
  seen_names (fold_left keep_existing existing st)
  = list_to_set (lower_name <$> existing) ∪ seen_names st.
Proof.
  revert st. induction existing as [|c existing IH]; intros st; cbn.
  - set_solver.
  - rewrite IH. cbn. unfold lower_name at 2. set_solver.
Qed.

Lemma add_new_names_consistent st item st' :
  names_consistent st -> add_new st item = Ok st' -> names_consistent st'.
Proof.
  unfold names_consistent. intros Hst H.
  destruct (add_new_result _ _ _ H); [done|]. cbn [final_colors seen_names].
  rewrite fmap_app, list_to_set_app_L, Hst. cbn. unfold lower_name at 2. cbn.
  set_solver.
Qed.

Lemma add_all_names_consistent st parsed st' :
  names_consistent st -> add_all st parsed = Ok st' -> names_consistent st'.
Proof.
  revert st. induction parsed as [|item rest IH]; intros st Hst H; cbn in H.
  - by injection H as <-.
  - destruct (add_new st item) as [st1|] eqn:E; cbn in H; [|done].
    eapply IH; [|exact H]. by eapply add_new_names_consistent.
Qed.

(** The seen sets only grow. *)
Lemma add_new_grows st item st' :
  add_new st item = Ok st' ->
  seen_hex st ⊆ seen_hex st' /\ seen_names st ⊆ seen_names st'.
Proof. intros H. destruct (add_new_result _ _ _ H); cbn; set_solver. Qed.

Lemma add_all_grows st parsed st' :
  add_all st parsed = Ok st' ->
  seen_hex st ⊆ seen_hex st' /\ seen_names st ⊆ seen_names st'.
Proof.
  revert st. induction parsed as [|item rest IH]; intros st H; cbn in H.
  - by injection H as <-.
  - destruct (add_new st item) as [st1|] eqn:E; cbn in H; [|done].
    apply add_new_grows in E. apply IH in H. set_solver.
Qed.

(** A record that has had its turn is skipped by every state whose seen
    sets hold what the sets held after that turn. *)
Lemma add_new_settled st item st' later :
  add_new st item = Ok st' ->
  seen_hex st' ⊆ seen_hex later -> seen_names st' ⊆ seen_names later ->
  add_new later item = Ok later.
Proof.
  intros H Hhex Hnames. unfold add_new in H |- *.
  destruct (rec_name item) as [| | | |raw_name| |]; try discriminate.
  destruct (rec_hex item) as [| | | |hex_val| |] eqn:Eh; cbn in H |- *;
    try discriminate; try (by destruct (bool_decide (_ ∈ seen_names later))).
  destruct (bool_decide (hex_val ∈ seen_hex later)) eqn:Dh; [done|].
  destruct (bool_decide (_ ∈ seen_names later)) eqn:Dn; [done|].
  destruct (hex_to_rgb hex_val) as [[[r g] b]|]; [|done]. exfalso.
  apply bool_decide_eq_false in Dh, Dn.
  destruct (bool_decide (hex_val ∈ seen_hex st)) eqn:Dh'.
  { injection H as <-. apply bool_decide_eq_true in Dh'. set_solver. }
  destruct (bool_decide (_ ∈ seen_names st)) eqn:Dn'.
  { injection H as <-. apply bool_decide_eq_true in Dn'. set_solver. }
  injection H as <-. cbn in Hhex. set_solver.
Qed.

Lemma add_all_settled st parsed st' later :
  add_all st parsed = Ok st' ->
  seen_hex st' ⊆ seen_hex later -> seen_names st' ⊆ seen_names later ->
  add_all later parsed = Ok later.
Proof.
  revert st. induction parsed as [|item rest IH]; intros st H Hhex Hnames; [done|].
  cbn in H |- *. destruct (add_new st item) as [st1|] eqn:E; cbn in H; [|done].
  destruct (add_all_grows _ _ _ H) as [Gh Gn].
  rewrite (add_new_settled _ _ _ later E) by set_solver. cbn. by eapply IH.
Qed.

(** What the merge does guarantee for the existing entries: an admitted
    entry differs from each of them in its lower-cased name, and the hex
    value it was admitted under differs, as a string, from each of their
    keys. *)
Lemma add_all_fresh st parsed st' :
  add_all st parsed = Ok st' ->
  exists new,
    final_colors st' = final_colors st ++ new
    /\ Forall (fun c =>
                 (lower_name c ∉ seen_names st)
                 /\ exists item hex_val,
                      item ∈ parsed /\ rec_hex item = JStr hex_val
                      /\ (hex_val ∉ seen_hex st)
                      /\ hex_to_rgb hex_val = Ok (red c, green c, blue c)) new.
Proof.
  revert st. induction parsed as [|item rest IH]; intros st H; cbn in H.
  - injection H as <-. exists []. by rewrite app_nil_r.
  - destruct (add_new st item) as [st1|] eqn:E; cbn in H; [|done].
    destruct (IH _ H) as (new & Hf & Hnew).
    destruct (add_new_grows _ _ _ E) as [Gh Gn].
    assert (Hnew' : Forall (fun c =>
                 (lower_name c ∉ seen_names st)
                 /\ exists i hex_val,
                      i ∈ item :: rest /\ rec_hex i = JStr hex_val
                      /\ (hex_val ∉ seen_hex st)
                      /\ hex_to_rgb hex_val = Ok (red c, green c, blue c)) new).
    { eapply Forall_impl; [exact Hnew|].
      intros c (Hn & i & hv & Hi & Hh & Hfresh & Hrgb). split; [set_solver|].
      exists i, hv. split; [by right|]. split; [done|]. split; [set_solver|done]. }
    destruct (add_new_result _ _ _ E).
    + by exists new.
    + eexists (_ :: new). cbn in *. rewrite Hf, <- app_assoc. split; [done|].
      constructor; [|done]. split; [done|].
      exists item, hex_val. split; [by left|done].
Qed.

End SeenSets.

(** X2. The priority the merge gives: the existing entries stay in front, and
    an admitted entry shares with none of them its lower-cased name, nor the
    spelling of its hex value with the spelling of their keys. *)
Lemma merge_priority_by_spelling existing parsed final added :
  merge existing parsed = Ok (final, added) ->
  exists new,
    final = existing ++ new
    /\ Forall (fun c =>
                 (forall e, e ∈ existing -> lower_name c ≠ lower_name e)
                 /\ exists item hex_val,
                      item ∈ parsed /\ rec_hex item = JStr hex_val
                      /\ (forall e, e ∈ existing -> hex_val ≠ hex_key e)
                      /\ hex_to_rgb hex_val = Ok (red c, green c, blue c)) new.
Proof.
  unfold merge. intros H.
  destruct (add_all (seed existing) parsed) as [st|] eqn:E; cbn in H; [|done].
  injection H as <- <-. destruct (add_all_fresh _ _ _ E) as (new & Hf & Hnew).
  rewrite seed_final in Hf. exists new. split; [done|].
  eapply Forall_impl; [exact Hnew|].
  unfold seed. rewrite seed_from_seen_names, seed_from_seen_hex.
  intros c (Hn & item & hv & Hi & Hh & Hfresh & Hrgb). split.
  - intros e He Heq. apply Hn. rewrite Heq. apply elem_of_union_l, elem_of_list_to_set.
    by apply list_elem_of_fmap_2.
  - exists item, hv. repeat split; try done. intros e He ->. apply Hfresh.
    apply elem_of_union_l, elem_of_list_to_set. by apply list_elem_of_fmap_2.
Qed.

(** X3. With the external hex values spelled as the keys are, a second run on
    the produced catalog adds nothing. *)
Lemma merge_idempotent_canonical existing parsed final added :
  NoDup (hex_key <$> existing) ->
  Forall canonical_hex parsed ->
  merge existing parsed = Ok (final, added) ->
  merge final parsed = Ok (final, 0%nat).
Proof.
  unfold merge. intros Hdup Hcan H.
  destruct (add_all (seed existing) parsed) as [st|] eqn:E; cbn in H; [|done].
  injection H as <- <-.
  destruct (add_all_keys_consistent _ _ _ Hcan (seed_keys_consistent _ Hdup) E)
    as [Hkeys _].
  assert (Hnames : names_consistent st).
  { eapply add_all_names_consistent; [|exact E].
    unfold names_consistent. rewrite seed_final. unfold seed.
    rewrite seed_from_seen_names. cbn. set_solver. }
  rewrite (add_all_settled _ _ _ (seed (final_colors st)) E).
  - cbn. by rewrite seed_final, seed_added.
  - unfold seed. rewrite seed_from_seen_hex, Hkeys. set_solver.
  - unfold seed. rewrite seed_from_seen_names, Hnames. set_solver.
Qed.

(** C2. The existing entry keeps its values, but the external record whose
    hex value is the upper-case spelling of the existing entry's colour is
    admitted as a second entry of that colour. *)
Lemma merge_admits_respelled_hex :
  hex_to_rgb "#DC143C" = Ok (220, 20, 60)
  /\ merge [Color "Crimson" 220 20 60] [RawRecord (JStr "ruby red") (JStr "#DC143C")]
     = Ok ([Color "Crimson" 220 20 60; Color "Ruby Red" 220 20 60], 1%nat).
Proof. split; vm_compute; reflexivity. Qed.

(** C3. Two records carry the same colour under the same spelling without
    [#]: the first run admits the first and skips the second on its hex
    value; the second run, whose seen set holds the key [#aabbcc] instead,
    admits the second. *)
Lemma merge_second_run_adds :
  let parsed := [RawRecord (JStr "foo") (JStr "AABBCC");
                 RawRecord (JStr "bar") (JStr "AABBCC")] in
  merge [] parsed = Ok ([Color "Foo" 170 187 204], 1%nat)
  /\ merge [Color "Foo" 170 187 204] parsed
     = Ok ([Color "Foo" 170 187 204; Color "Bar" 170 187 204], 1%nat).
Proof. split; vm_compute; reflexivity. Qed.

(** ** The round trip through the file *)

Section Strings.

Implicit Types (s t u : string) (c : ascii).

Lemma append_assoc s t u : ((s ++ t) ++ u)%string = (s ++ (t ++ u))%string.
Proof. induction s as [|c s IH]; cbn; [done|]. by rewrite IH. Qed.

Lemma append_empty_r s : (s ++ "")%string = s.
Proof. induction s as [|c s IH]; cbn; [done|]. by rewrite IH. Qed.

Lemma length_append s t :
  String.length (s ++ t) = (String.length s + String.length t)%nat.
Proof. induction s as [|c s IH]; cbn; [done|]. by rewrite IH. Qed.

Lemma forallb_append p s t :
  Str.forallb p (s ++ t) = Str.forallb p s && Str.forallb p t.
Proof. induction s as [|c s IH]; cbn; [done|]. by rewrite IH, andb_assoc. Qed.

Lemma replace_same c s : replace c (String c "") s = s.
Proof.
  induction s as [|a s IH]; cbn; [done|]. rewrite IH.
  by destruct (Ascii.eqb_spec a c) as [->|].
Qed.

End Strings.

(** *** Decimal numerals *)

Lemma digit_char c :
  Char.is_digit c = true ->
  Char.is_c_space c = false /\ Char.is_space c = false /\ Ascii.eqb c "_" = false
  /\ Char.digit_value c = Some (hex_digit_value c) /\ 0 <= hex_digit_value c < 10.
Proof.
  intros H. assert (F : digit_facts c = true).
  { clear H. revert c. apply forall_ascii. vm_compute. reflexivity. }
  unfold digit_facts in F. rewrite H in F. cbn [implb] in F.
  unfold hex_digit_value. destruct (Char.digit_value c) as [d|];
    repeat (apply andb_prop in F as [F ?]); [|done].
  repeat match goal with
         | H : negb _ = true |- _ => apply negb_true_iff in H
         end.
  cbn. repeat split; try done; lia.
Qed.

Lemma hex_char_digit d :
  0 <= d < 10 ->
  Char.is_digit (hex_char d) = true /\ hex_digit_value (hex_char d) = d.
Proof.
  intros H.
  assert (Hd : d = 0 \/ d = 1 \/ d = 2 \/ d = 3 \/ d = 4 \/ d = 5 \/ d = 6
               \/ d = 7 \/ d = 8 \/ d = 9) by lia.
  repeat destruct Hd as [->|Hd]; try subst d; done.
Qed.

Lemma digits_value_append s t acc :
  digits_value (s ++ t) acc = digits_value t (digits_value s acc).
Proof. revert acc. induction s as [|c s IH]; intros acc; cbn; [done|apply IH]. Qed.

Lemma radix_go_decimal fuel :
  forall n acc,
    (1 <= fuel)%nat -> 0 <= n < 10 ^ Z.of_nat fuel ->
    exists digits,
      radix_go 10 fuel n acc = (digits ++ acc)%string
      /\ is_number digits
      /\ forall a, digits_value digits a = a * 10 ^ Z.of_nat (String.length digits) + n.
Proof.
  induction fuel as [|fuel IH]; intros n acc Hfuel Hn; [lia|].
  cbn [radix_go].
  assert (Hmod : 0 <= n mod 10 < 10) by (apply Z.mod_pos_bound; lia).
  destruct (hex_char_digit _ Hmod) as [Hdig Hval].
  destruct (Z.eqb_spec (n / 10) 0) as [Hq|Hq].
  - exists (String (hex_char (n mod 10)) ""). split; [done|]. split.
    + split; [done|]. cbn. by rewrite Hdig.
    + intros a. cbn. rewrite Hval. pose proof (Z.div_mod n 10). lia.
  - assert (Hq' : 0 < n / 10) by (pose proof (Z.div_pos n 10); lia).
    assert (Hbound : n / 10 < 10 ^ Z.of_nat fuel).
    { apply Z.div_lt_upper_bound; [lia|].
      rewrite Nat2Z.inj_succ, Z.pow_succ_r in Hn by lia. lia. }
    assert (Hfuel' : (1 <= fuel)%nat).
    { destruct fuel; [cbn in Hbound; lia|lia]. }
    destruct (IH (n / 10) (String (hex_char (n mod 10)) acc) Hfuel' ltac:(lia))
      as (digits & -> & [Hne Hall] & Hv).
    exists (digits ++ String (hex_char (n mod 10)) "")%string. split; [|split].
    + by rewrite append_assoc.
    + split; [by destruct digits|]. rewrite forallb_append, Hall. cbn. by rewrite Hdig.
    + intros a. rewrite digits_value_append, Hv, length_append. cbn.
      rewrite Hval, Nat2Z.inj_add, Z.pow_add_r by lia.
      pose proof (Z.div_mod n 10). change (Z.of_nat 1) with 1. lia.
Qed.

Lemma decimal_of_number n :
  0 <= n -> is_number (decimal_of n) /\ digits_value (decimal_of n) 0 = n.
Proof.
  intros Hn. unfold decimal_of.
  destruct (radix_go_decimal (S (Z.to_nat (Z.log2 n))) n "") as (digits & -> & Hnum & Hv).
  - lia.
  - split; [done|]. rewrite Nat2Z.inj_succ, Z2Nat.id by apply Z.log2_nonneg.
    destruct (Z.eq_dec n 0) as [->|Hz]; [done|].
    pose proof (Z.log2_spec n ltac:(lia)) as [_ Hlt].
    eapply Z.lt_le_trans; [exact Hlt|].
    apply Z.pow_le_mono_l. lia.
  - rewrite append_empty_r. split; [done|]. rewrite Hv. lia.
Qed.

Lemma scan_digits s :
  forall acc ndigits,
    Str.forallb Char.is_digit s = true ->
    PyInt.scan 10 s acc ndigits false
    = PyInt.stop (ndigits + String.length s) false (digits_value s acc) "".
Proof.
  induction s as [|c s IH]; intros acc ndigits H; cbn [PyInt.scan].
  - by rewrite Nat.add_0_r.
  - cbn in H. apply andb_prop in H as [Hc H].
    destruct (digit_char _ Hc) as (_ & _ & -> & -> & Hd & Hd').
    replace (hex_digit_value c <? 10) with true by (symmetry; by apply Z.ltb_lt).
    rewrite IH by done. cbn. by rewrite Nat.add_succ_r.
Qed.

Lemma int_number s : is_number s -> PyInt.int 10 s = Ok (digits_value s 0).
Proof.
  intros [Hne Hall]. destruct s as [|c s]; [done|].
  pose proof Hall as Hall'. cbn in Hall'. apply andb_prop in Hall' as [Hc _].
  destruct (digit_char _ Hc) as (Hsp & _ & Hus & _).
  unfold PyInt.int. cbn [Str.drop_while]. rewrite Hsp.
  assert (Hsign : PyInt.split_sign (String c s) = (false, String c s)).
  { destruct c as [[] [] [] [] [] [] [] []]; try discriminate Hc; reflexivity. }
  rewrite Hsign.
  assert (Hpre : PyInt.skip_prefix 10 (String c s) = String c s).
  { unfold PyInt.skip_prefix. repeat case_match; done. }
  rewrite Hpre.
  assert (Hund : PyInt.starts_with_underscore (String c s) = false).
  { destruct c as [[] [] [] [] [] [] [] []]; try discriminate Hus; reflexivity. }
  rewrite Hund, scan_digits by done. done.
Qed.

Lemma str_of_int_roundtrip n :
  0 <= n -> is_number (str_of_int n) /\ PyInt.int 10 (str_of_int n) = Ok n.
Proof.
  intros Hn. unfold str_of_int.
  replace (n <? 0) with false by (symmetry; by apply Z.ltb_ge).
  destruct (decimal_of_number n Hn) as [Hnum Hv].
  split; [done|]. by rewrite int_number, Hv.
Qed.

(** *** The pattern on one written entry *)

Section Pattern.

Implicit Types (s rest : string) (c : ascii).

Lemma lit_append p s : Re.lit p (p ++ s) = Some s.
Proof. induction p as [|a p IH]; cbn; [done|]. by rewrite Ascii.eqb_refl. Qed.

Lemma span_append p s c rest :
  Str.forallb p s = true -> p c = false ->
  Re.span p (s ++ String c rest) = (s, String c rest).
Proof.
  intros Hs Hc. induction s as [|a s IH]; cbn.
  - by rewrite Hc.
  - cbn in Hs. apply andb_prop in Hs as [-> Hs]. by rewrite IH.
Qed.

Lemma plus_append p s c rest :
  s ≠ "" -> Str.forallb p s = true -> p c = false ->
  Re.plus p (s ++ String c rest) = Some (s, String c rest).
Proof.
  intros Hne Hs Hc. unfold Re.plus. rewrite span_append by done. by destruct s.
Qed.

Lemma spaces_number s rest : is_number s -> Re.spaces (s ++ rest) = (s ++ rest)%string.
Proof.
  intros [Hne Hall]. destruct s as [|c s]; [done|].
  cbn in Hall. apply andb_prop in Hall as [Hc _].
  destruct (digit_char _ Hc) as (_ & Hsp & _). cbn. by rewrite Hsp.
Qed.

Lemma comma_number_append s c rest :
  is_number s -> Char.is_digit c = false ->
  Re.comma_number (String "," (String " " (s ++ String c rest)))
  = Some (s, String c rest).
Proof.
  intros Hs Hc. unfold Re.comma_number.
  change (Re.spaces (String "," ?x)) with (String "," x).
  change (Re.lit "," (String "," ?x)) with (Some x).
  cbn [mbind option_bind].
  change (Re.spaces (String " " ?x)) with (Re.spaces x).
  rewrite spaces_number by done. destruct Hs. by apply plus_append.
Qed.

Lemma match_at_entry name r g b rest :
  name ≠ "" -> Str.forallb Re.not_dquote name = true ->
  is_number r -> is_number g -> is_number b ->
  Re.match_at (entry_text name r g b rest) = Some (name, r, g, b, rest).
Proof.
  intros Hne Hq Hr Hg Hb. unfold Re.match_at, entry_text.
  cbn [String.append].
  change (Re.lit "NamedColor" (String "N" (String "a" (String "m" (String "e"
            (String "d" (String "C" (String "o" (String "l" (String "o"
            (String "r" ?x)))))))))))
    with (Some x).
  cbn [mbind option_bind].
  change (Re.spaces (String "(" ?x)) with (String "(" x).
  change (Re.lit "(" (String "(" ?x)) with (Some x). cbn [mbind option_bind].
  change (Re.spaces (String dquote ?x)) with (String dquote x).
  change (Re.lit (String dquote "") (String dquote ?x)) with (Some x).
  cbn [mbind option_bind].
  rewrite plus_append by done. cbn [mbind option_bind].
  change (Re.lit (String dquote "") (String dquote ?x)) with (Some x).
  cbn [mbind option_bind].
  rewrite (comma_number_append r) by done. cbn [mbind option_bind].
  rewrite (comma_number_append g) by done. cbn [mbind option_bind].
  rewrite (comma_number_append b) by done. cbn [mbind option_bind].
  change (Re.spaces (String ")" ?x)) with (String ")" x).
  done.
Qed.

End Pattern.

(** *** The scan over the written file *)

Section Scan.

Implicit Types (s rest : string) (c : color).

(** Both sides of an equation between concatenations, nested to the right. *)
Ltac reassociate :=
  repeat first [rewrite append_assoc | progress cbn [String.append]].

Lemma findall_skip p rest :
  Re.findall_from (String.length p) (p ++ rest) = Re.findall_from 0 rest.
Proof. induction p as [|a p IH]; [done|]. cbn. exact IH. Qed.

Lemma findall_step a s :
  Ascii.eqb "N" a = false -> Re.findall_from 0 (String a s) = Re.findall_from 0 s.
Proof.
  intros H. cbn [Re.findall_from]. unfold Re.match_at. cbn [Re.lit]. by rewrite H.
Qed.

Lemma entry_text_append name r g b rest :
  entry_text name r g b rest = (entry_text name r g b "" ++ rest)%string.
Proof.
  unfold entry_text. by reassociate.
Qed.

Lemma findall_entry name r g b rest :
  name ≠ "" -> Str.forallb Re.not_dquote name = true ->
  is_number r -> is_number g -> is_number b ->
  Re.findall_from 0 (entry_text name r g b rest)
  = (name, r, g, b) :: Re.findall_from 0 rest.
Proof.
  intros Hne Hq Hr Hg Hb.
  pose proof (match_at_entry name r g b rest Hne Hq Hr Hg Hb) as Hm.
  rewrite entry_text_append in Hm |- *.
  destruct (entry_text name r g b "") as [|a body] eqn:E; [done|].
  cbn [String.append] in Hm |- *. cbn [Re.findall_from]. rewrite Hm. f_equal.
  cbn [String.length]. rewrite length_append.
  replace (S (String.length body + String.length rest) - String.length rest - 1)%nat
    with (String.length body) by lia.
  apply findall_skip.
Qed.

Lemma list_item_entry c rest :
  (list_item c ++ rest)%string
  = ("        " ++ entry_text (name c) (str_of_int (red c)) (str_of_int (green c))
                              (str_of_int (blue c)) rest)%string.
Proof.
  unfold list_item, safe_name, entry_text. rewrite replace_same. by reassociate.
Qed.

Lemma findall_list_item c rest :
  readable c ->
  Re.findall_from 0 (list_item c ++ rest) = groups_of c :: Re.findall_from 0 rest.
Proof.
  intros (Hne & Hq & Hr & Hg & Hb). rewrite list_item_entry. cbn [String.append].
  do 8 (rewrite findall_step by reflexivity).
  apply findall_entry; try done; by apply str_of_int_roundtrip.
Qed.

Lemma findall_join catalog rest :
  Forall readable catalog ->
  Re.findall_from 0 (join (String "," (String newline "")) (List.map list_item catalog)
                     ++ rest)
  = List.map groups_of catalog ++ Re.findall_from 0 rest.
Proof.
  induction 1 as [|c catalog Hc _ IH]; [done|].
  cbn [List.map join]. destruct catalog as [|c' catalog].
  - by apply findall_list_item.
  - cbn [List.map] in IH |- *. rewrite !append_assoc, findall_list_item by done.
    cbn [String.append app]. f_equal.
    do 2 (rewrite findall_step by reflexivity). exact IH.
Qed.

Lemma findall_header rest : Re.findall_from 0 (header ++ rest) = Re.findall_from 0 rest.
Proof. vm_compute. reflexivity. Qed.

Lemma findall_footer : Re.findall_from 0 (String newline footer) = [].
Proof. vm_compute. reflexivity. Qed.

Lemma findall_serialize catalog :
  Forall readable catalog ->
  Re.findall (serialize catalog) = List.map groups_of catalog.
Proof.
  intros H. unfold Re.findall, serialize.
  rewrite findall_header, findall_join by done.
  cbn [String.append]. by rewrite findall_footer, app_nil_r.
Qed.

Lemma to_colors_groups catalog :
  Forall readable catalog -> to_colors (List.map groups_of catalog) = Ok catalog.
Proof.
  induction 1 as [|c catalog (_ & _ & Hr & Hg & Hb) _ IH]; [done|].
  cbn [List.map to_colors]. rewrite IH. unfold groups_of, to_color.
  rewrite (proj2 (str_of_int_roundtrip _ Hr)). cbn [mbind outcome_bind].
  rewrite (proj2 (str_of_int_roundtrip _ Hg)). cbn [mbind outcome_bind].
  rewrite (proj2 (str_of_int_roundtrip _ Hb)). cbn [mbind outcome_bind].
  by destruct c.
Qed.

End Scan.




(** * Further properties of the merge *)

Section MergeOrder.

Implicit Types (st : merge_state) (c : color) (item : raw_record).

Lemma add_new_names_unique st item st' :
  names_unique st -> add_new st item = Ok st' -> names_unique st'.
Proof.
  intros [Hcons Hdup] H. split; [by eapply add_new_names_consistent|].
  destruct (add_new_result _ _ _ H) as [|raw_name hex_val r g b _ _ _ Hfresh _]; [done|].
  cbn [final_colors]. rewrite fmap_app. apply NoDup_app. split; [done|].
  split; [|apply NoDup_singleton].
  intros k Hk ->%list_elem_of_singleton. apply Hfresh.
  rewrite Hcons. by apply elem_of_list_to_set.
Qed.

Lemma add_all_names_unique st parsed st' :
  names_unique st -> add_all st parsed = Ok st' -> names_unique st'.
Proof.
  revert st. induction parsed as [|item rest IH]; intros st Hst H; cbn in H.
  - by injection H as <-.
  - destruct (add_new st item) as [st1|] eqn:E; cbn in H; [|done].
    eapply IH; [|exact H]. by eapply add_new_names_unique.
Qed.

Lemma seed_names_unique existing :
  NoDup (lower_name <$> existing) -> names_unique (seed existing).
Proof.
  intros H. unfold names_unique, names_consistent. rewrite seed_final.
  split; [|done]. unfold seed. rewrite seed_from_seen_names. cbn. set_solver.
Qed.

(** The admitted entries, in order, and the records they came from. *)
Lemma add_all_in_order st parsed st' :
  add_all st parsed = Ok st' ->
  exists admitted new,
    final_colors st' = final_colors st ++ new
    /\ admitted `sublist_of` parsed
    /\ Forall2 admits admitted new.
Proof.
  revert st. induction parsed as [|item rest IH]; intros st H; cbn in H.
  - injection H as <-. exists [], []. by rewrite app_nil_r.
  - destruct (add_new st item) as [st1|] eqn:E; cbn in H; [|done].
    destruct (IH _ H) as (admitted & new & Hf & Hsub & Hall).
    destruct (add_new_result _ _ _ E) as [|raw_name hex_val r g b Hn Hh _ _ Hrgb].
    + exists admitted, new. split; [done|]. split; [by apply sublist_cons|done].
    + exists (item :: admitted), (Color (Str.title raw_name) r g b :: new).
      cbn in Hf. rewrite Hf, <- app_assoc. split; [done|].
      split; [by apply sublist_skip|]. constructor; [|done].
      by exists raw_name, hex_val.
Qed.

End MergeOrder.

(** X1. Names stay unique: when no two existing entries share a lower-cased
    name, no two entries of the produced catalog do, whatever the external
    records are. *)
Theorem merge_names_unique (existing : list color) (parsed : list raw_record)
    (final : list color) (added : nat) :
  NoDup (lower_name <$> existing) ->
  merge existing parsed = Ok (final, added) ->
  NoDup (lower_name <$> final).
Proof.
  unfold merge. intros Hdup H.
  destruct (add_all (seed existing) parsed) as [st|] eqn:E; cbn in H; [|done].
  injection H as <- <-.
  by destruct (add_all_names_unique _ _ _ (seed_names_unique _ Hdup) E).
Qed.

Lemma merge_names_unique_witness :
  NoDup (lower_name <$> [Color "Crimson" 220 20 60; Color "Teal" 0 128 128]).
Proof.
  apply (merge_names_unique [Color "Crimson" 220 20 60]
           [RawRecord (JStr "CRIMSON") (JStr "#ff0000");
            RawRecord (JStr "teal") (JStr "#008080");
            RawRecord (JStr "tEAL") (JStr "#008081")]
           _ 1%nat).
  - apply NoDup_singleton.
  - vm_compute. reflexivity.
Defined.

(** X4. The new entries follow the existing ones in the order of the records
    they were admitted from, one entry per admitted record at most: the
    count never exceeds the number of records. *)
Theorem merge_admits_in_source_order (existing : list color) (parsed : list raw_record)
    (final : list color) (added : nat) :
  merge existing parsed = Ok (final, added) ->
  exists admitted new,
    final = existing ++ new
    /\ admitted `sublist_of` parsed
    /\ Forall2 admits admitted new
    /\ added = length new
    /\ (added <= length parsed)%nat.
Proof.
  unfold merge. intros H.
  destruct (add_all (seed existing) parsed) as [st|] eqn:E; cbn in H; [|done].
  injection H as <- <-.
  destruct (add_all_in_order _ _ _ E) as (admitted & new & Hf & Hsub & Hall).
  destruct (add_all_appends _ _ _ E) as (new' & Hf' & Hn & _).
  rewrite seed_final in Hf, Hf'. rewrite seed_added in Hn.
  assert (new' = new) as -> by (rewrite Hf in Hf'; by apply app_inv_head in Hf').
  exists admitted, new. split; [done|]. split; [done|]. split; [done|].
  split; [by rewrite Hn|]. rewrite Hn. cbn.
  rewrite <- (Forall2_length _ _ _ Hall). by apply sublist_length.
Qed.

Lemma merge_admits_in_source_order_witness :
  exists admitted new,
    [Color "Crimson" 220 20 60; Color "Green" 0 255 0] = [Color "Crimson" 220 20 60] ++ new
    /\ admitted `sublist_of` [RawRecord (JStr "crimson") (JStr "#dc143c");
                              RawRecord (JStr "Green") (JStr "#00ff00")]
    /\ Forall2 admits admitted new
    /\ 1%nat = length new
    /\ (1 <= length [RawRecord (JStr "crimson") (JStr "#dc143c");
                     RawRecord (JStr "Green") (JStr "#00ff00")])%nat.
Proof.
  apply (merge_admits_in_source_order [Color "Crimson" 220 20 60]).
  vm_compute. reflexivity.
Defined.

Lemma merge_priority_by_spelling_witness :
  exists new,
    [Color "Crimson" 220 20 60; Color "Green" 0 255 0] = [Color "Crimson" 220 20 60] ++ new
    /\ Forall (fun c =>
                 (forall e, e ∈ [Color "Crimson" 220 20 60] -> lower_name c ≠ lower_name e)
                 /\ exists item hex_val,
                      item ∈ [RawRecord (JStr "crimson") (JStr "#dc143c");
                              RawRecord (JStr "Green") (JStr "#00ff00")]
                      /\ rec_hex item = JStr hex_val
                      /\ (forall e, e ∈ [Color "Crimson" 220 20 60] -> hex_val ≠ hex_key e)
                      /\ hex_to_rgb hex_val = Ok (red c, green c, blue c)) new.
Proof.
  apply (merge_priority_by_spelling _ _ _ 1%nat). vm_compute. reflexivity.
Defined.

Lemma merge_idempotent_canonical_witness :
  merge [Color "Crimson" 220 20 60; Color "Green" 0 255 0]
        [RawRecord (JStr "crimson") (JStr "#dc143c");
         RawRecord (JStr "Green") (JStr "#00ff00")]
  = Ok ([Color "Crimson" 220 20 60; Color "Green" 0 255 0], 0%nat).
Proof.
  apply (merge_idempotent_canonical [Color "Crimson" 220 20 60] _ _ 1%nat).
  - apply NoDup_singleton.
  - repeat constructor; intros h [= <-]; reflexivity.
  - vm_compute. reflexivity.
Defined.

Section Repetition.

Implicit Types (st : merge_state) (c : color) (item : raw_record).

Lemma add_all_app st parsed more :
  add_all st (parsed ++ more) = (st' ← add_all st parsed; add_all st' more).
Proof.
  revert st. induction parsed as [|item rest IH]; intros st; cbn; [done|].
  destruct (add_new st item) as [st1|]; cbn; [apply IH|done].
Qed.

(** The hex values the admitted records were admitted under: new to the
    seen set, held by it afterwards, and pairwise different. *)
Lemma add_all_spellings st parsed st' :
  add_all st parsed = Ok st' ->
  exists admitted new,
    final_colors st' = final_colors st ++ new
    /\ admitted `sublist_of` parsed
    /\ Forall2 admits admitted new
    /\ Forall (fun item => exists hex_val,
                   rec_hex item = JStr hex_val
                   /\ (hex_val ∉ seen_hex st) /\ hex_val ∈ seen_hex st') admitted
    /\ NoDup (rec_hex <$> admitted).
Proof.
  revert st. induction parsed as [|item rest IH]; intros st H; cbn in H.
  - injection H as <-. exists [], []. rewrite app_nil_r.
    repeat split; try done; constructor.
  - destruct (add_new st item) as [st1|] eqn:E; cbn in H; [|done].
    destruct (IH _ H) as (admitted & new & Hf & Hsub & Hall & Hsp & Hnd).
    destruct (add_new_grows _ _ _ E) as [Gh _].
    destruct (add_all_grows _ _ _ H) as [Gh' _].
    assert (Hsp' : Forall (fun i => exists hex_val,
                   rec_hex i = JStr hex_val
                   /\ (hex_val ∉ seen_hex st) /\ hex_val ∈ seen_hex st') admitted).
    { eapply Forall_impl; [exact Hsp|]. intros i (h & ? & ? & ?). exists h. set_solver. }
    destruct (add_new_result _ _ _ E) as [|raw_name hex_val r g b Hn Hh Hfresh _ Hrgb].
    + exists admitted, new. repeat split; try done. by apply sublist_cons.
    + exists (item :: admitted), (Color (Str.title raw_name) r g b :: new).
      cbn in Hf. rewrite Hf, <- app_assoc. split; [done|].
      split; [by apply sublist_skip|]. split.
      { constructor; [|done]. by exists raw_name, hex_val. }
      split.
      { constructor; [|done]. exists hex_val. cbn in Gh'. set_solver. }
      cbn [fmap list_fmap]. apply NoDup_cons. split; [|done].
      intros Hin. apply list_elem_of_fmap in Hin as (i & Hi & Hin).
      rewrite Forall_forall in Hsp. destruct (Hsp _ Hin) as (h & Hh' & Hnew & _).
      rewrite Hh in Hi. rewrite <- Hi in Hh'. injection Hh' as <-.
      cbn in Hnew. set_solver.
Qed.

End Repetition.

(** X6. Within one run a hex spelling is admitted once: the records the new
    entries were admitted from carry pairwise different hex strings. *)
Theorem merge_admitted_spellings_distinct (existing : list color)
    (parsed : list raw_record) (final : list color) (added : nat) :
  merge existing parsed = Ok (final, added) ->
  exists admitted new,
    final = existing ++ new
    /\ admitted `sublist_of` parsed
    /\ Forall2 admits admitted new
    /\ NoDup (rec_hex <$> admitted).
Proof.
  unfold merge. intros H.
  destruct (add_all (seed existing) parsed) as [st|] eqn:E; cbn in H; [|done].
  injection H as <- <-.
  destruct (add_all_spellings _ _ _ E) as (admitted & new & Hf & Hsub & Hall & _ & Hnd).
  rewrite seed_final in Hf. by exists admitted, new.
Qed.

Lemma merge_admitted_spellings_distinct_witness :
  exists admitted new,
    [Color "Foo" 170 187 204] = [] ++ new
    /\ admitted `sublist_of` [RawRecord (JStr "foo") (JStr "AABBCC");
                              RawRecord (JStr "bar") (JStr "AABBCC")]
    /\ Forall2 admits admitted new
    /\ NoDup (rec_hex <$> admitted).
Proof.
  apply (merge_admitted_spellings_distinct [] _ _ 1%nat). vm_compute. reflexivity.
Defined.

(** X5. Records met a second time in the same run change nothing: the merge of
    the records followed by the same records again is the merge of the
    records. *)
Theorem merge_repeated_records (existing : list color) (parsed : list raw_record)
    (final : list color) (added : nat) :
  merge existing parsed = Ok (final, added) ->
  merge existing (parsed ++ parsed) = Ok (final, added).
Proof.
  unfold merge. intros H.
  destruct (add_all (seed existing) parsed) as [st|] eqn:E; cbn in H; [|done].
  injection H as <- <-.
  rewrite add_all_app, E. cbn [mbind outcome_bind].
  by rewrite (add_all_settled _ _ _ st E).
Qed.

Lemma merge_repeated_records_witness :
  merge [] ([RawRecord (JStr "foo") (JStr "AABBCC"); RawRecord (JStr "bar") (JStr "AABBCC")]
            ++ [RawRecord (JStr "foo") (JStr "AABBCC"); RawRecord (JStr "bar") (JStr "AABBCC")])
  = Ok ([Color "Foo" 170 187 204], 1%nat).
Proof. apply merge_repeated_records. vm_compute. reflexivity. Defined.

(** * Further properties of [hex_to_rgb] and of the keys *)

Section HexParsing.

Implicit Types (s : string) (a b : ascii).

Lemma int16_short s :
  (String.length s <= 2)%nat ->
  PyInt.int 16 (Str.lower s) = PyInt.int 16 s
  /\ forall v, PyInt.int 16 s = Ok v -> -15 <= v <= 255.
Proof.
  intros Hlen.
  assert (F2 : forall a b, short_int16_ok (String a (String b "")) = true).
  { apply forall_ascii2. vm_compute. reflexivity. }
  assert (F1 : forall a, short_int16_ok (String a "") = true).
  { apply forall_ascii. vm_compute. reflexivity. }
  assert (F : short_int16_ok s = true).
  { destruct s as [|a [|b [|]]]; [reflexivity|apply F1|apply F2|cbn in Hlen; lia]. }
  unfold short_int16_ok in F. apply andb_prop in F as [Fl Fb]. split.
  - destruct (PyInt.int 16 (Str.lower s)) as [v|e] eqn:E1,
             (PyInt.int 16 s) as [w|e'] eqn:E2; cbn in Fl; try discriminate Fl.
    + apply Z.eqb_eq in Fl. by subst.
    + apply int_raises_value_error in E1, E2. by subst.
  - intros v Hv. rewrite Hv in Fb. lia.
Qed.

Lemma slice_length i n s : (String.length (Str.slice i n s) <= n)%nat.
Proof.
  unfold Str.slice. revert i n.
  induction s as [|c s IH]; intros [|i] [|n]; cbn;
    first [lia | apply IH | (specialize (IH 0%nat n); lia)].
Qed.

Lemma slice_lower i n s : Str.slice i n (Str.lower s) = Str.lower (Str.slice i n s).
Proof.
  unfold Str.slice. revert i n.
  induction s as [|c s IH]; intros [|i] [|n]; cbn;
    first [done | apply IH | (f_equal; apply IH)].
Qed.

Lemma to_lower_hash c : Ascii.eqb (Char.to_lower c) "#" = Ascii.eqb c "#".
Proof.
  assert (F : Bool.eqb (Ascii.eqb (Char.to_lower c) "#") (Ascii.eqb c "#") = true).
  { revert c. apply forall_ascii. vm_compute. reflexivity. }
  by apply eqb_prop in F.
Qed.

Lemma lstrip_lower s : Str.lstrip "#" (Str.lower s) = Str.lower (Str.lstrip "#" s).
Proof.
  induction s as [|c s IH]; [done|].
  cbn [Str.lower Str.map Str.lstrip]. rewrite to_lower_hash.
  destruct (Ascii.eqb c "#"); [exact IH|reflexivity].
Qed.

Lemma lstrip_not_hash s c t : Str.lstrip "#" s = String c t -> Ascii.eqb c "#" = false.
Proof.
  induction s as [|a s IH]; cbn [Str.lstrip]; [done|].
  destruct (Ascii.eqb a "#") eqn:E; [exact IH|]. by intros [= <- _].
Qed.

Lemma lstrip_slice_stripped s :
  Str.lstrip "#" (Str.slice 0 6 (Str.lstrip "#" s)) = Str.slice 0 6 (Str.lstrip "#" s).
Proof.
  destruct (Str.lstrip "#" s) as [|c t] eqn:E; [done|].
  apply lstrip_not_hash in E.
  unfold Str.slice. cbn [String.substring Str.lstrip]. by rewrite E.
Qed.

Lemma slice_of_prefix i s :
  (i + 2 <= 6)%nat -> Str.slice i 2 (Str.slice 0 6 s) = Str.slice i 2 s.
Proof.
  intros Hi. unfold Str.slice.
  destruct s as [|c0 [|c1 [|c2 [|c3 [|c4 [|c5 rest]]]]]];
    do 5 (destruct i as [|i]; try lia; try reflexivity).
  all: cbn; by destruct rest.
Qed.

End HexParsing.

(** X7. [hex_to_rgb] does not look at the case of the letters: a hex string and
    its lower-cased form give the same channels, or fail together. *)
Theorem hex_to_rgb_ignores_case (hex_color : string) :
  Str.is_ascii hex_color = true ->
  hex_to_rgb (Str.lower hex_color) = hex_to_rgb hex_color.
Proof.
  intros _. unfold hex_to_rgb. rewrite lstrip_lower, !slice_lower.
  by rewrite !(proj1 (int16_short _ (slice_length _ 2 _))).
Qed.

Lemma hex_to_rgb_ignores_case_witness :
  hex_to_rgb (Str.lower "#DC143C") = hex_to_rgb "#DC143C".
Proof. apply hex_to_rgb_ignores_case. reflexivity. Defined.

(** X8. [hex_to_rgb] reads the first six characters after the leading [#]s and
    nothing else: what follows them changes neither the channels nor whether
    the call fails. *)
Theorem hex_to_rgb_reads_six (hex_color : string) :
  hex_to_rgb hex_color = hex_to_rgb (Str.slice 0 6 (Str.lstrip "#" hex_color)).
Proof.
  unfold hex_to_rgb. rewrite lstrip_slice_stripped.
  by rewrite !slice_of_prefix by lia.
Qed.

(** X9. A channel [hex_to_rgb] returns is never above 255, and never below -15:
    a two-character slice may be a sign and a digit. *)
Theorem hex_to_rgb_channel_bounds (hex_color : string) (r g b : Z) :
  hex_to_rgb hex_color = Ok (r, g, b) ->
  -15 <= r <= 255 /\ -15 <= g <= 255 /\ -15 <= b <= 255.
Proof.
  unfold hex_to_rgb. intros H.
  destruct (PyInt.int 16 (Str.slice 0 2 _)) as [r'|] eqn:Er; cbn in H; [|done].
  destruct (PyInt.int 16 (Str.slice 2 2 _)) as [g'|] eqn:Eg; cbn in H; [|done].
  destruct (PyInt.int 16 (Str.slice 4 2 _)) as [b'|] eqn:Eb; cbn in H; [|done].
  injection H as <- <- <-.
  pose proof (proj2 (int16_short _ (slice_length _ 2 _)) _ Er).
  pose proof (proj2 (int16_short _ (slice_length _ 2 _)) _ Eg).
  pose proof (proj2 (int16_short _ (slice_length _ 2 _)) _ Eb).
  done.
Qed.

Lemma hex_to_rgb_channel_bounds_witness :
  hex_to_rgb "-fff+0" = Ok (-15, 255, 0)
  /\ -15 <= -15 <= 255 /\ -15 <= 255 <= 255 /\ -15 <= 0 <= 255.
Proof.
  split; [reflexivity|]. apply (hex_to_rgb_channel_bounds "-fff+0"). reflexivity.
Defined.

Section Keys.

Lemma format_byte n :
  0 <= n <= 255 ->
  exists a b,
    format_02x n = String a (String b "")
    /\ is_lower_hex a = true /\ is_lower_hex b = true
    /\ byte_value (String a (String b "")) = n.
Proof.
  intros Hn.
  assert (F : forall k, (k < 256)%nat -> format_byte_ok (Z.of_nat k) = true).
  { intros k Hk.
    assert (A : List.forallb (fun k => format_byte_ok (Z.of_nat k)) (seq 0 256) = true)
      by (vm_compute; reflexivity).
    eapply forallb_forall in A; [exact A|]. apply in_seq. lia. }
  specialize (F (Z.to_nat n) ltac:(lia)). rewrite Z2Nat.id in F by lia.
  unfold format_byte_ok in F.
  destruct (format_02x n) as [|a [|b [|]]]; try discriminate F.
  repeat (apply andb_prop in F as [F ?]). apply Z.eqb_eq in H.
  by exists a, b.
Qed.

Lemma key_parses r g b :
  0 <= r <= 255 -> 0 <= g <= 255 -> 0 <= b <= 255 ->
  hex_to_rgb (format_hex r g b) = Ok (r, g, b)
  /\ is_canonical (format_hex r g b) = true.
Proof.
  intros Hr Hg Hb.
  destruct (format_byte r Hr) as (r1 & r2 & Er & Hr1 & Hr2 & Vr).
  destruct (format_byte g Hg) as (g1 & g2 & Eg & Hg1 & Hg2 & Vg).
  destruct (format_byte b Hb) as (b1 & b2 & Eb & Hb1 & Hb2 & Vb).
  unfold format_hex. rewrite Er, Eg, Eb. cbn [String.append].
  destruct (format_pair r1 r2) as (_ & ? & ? & N); [done..|].
  destruct (format_pair g1 g2) as (_ & ? & ? & _); [done..|].
  destruct (format_pair b1 b2) as (_ & ? & ? & _); [done..|].
  split.
  - unfold hex_to_rgb. cbn [Str.lstrip]. change (Ascii.eqb "#" "#") with true.
    cbn match. rewrite N.
    destruct (hex_to_rgb_accepts
                (String r1 (String r2 (String g1 (String g2 (String b1 (String b2 "")))))))
      as [E _]; [cbn; lia|cbn; by repeat (apply andb_true_intro; split)|].
    rewrite E. cbn [Str.slice String.substring]. by rewrite Vr, Vg, Vb.
  - cbn. by repeat (apply andb_true_intro; split).
Qed.

End Keys.

(** X10. The key of an entry with channels between 0 and 255 is spelled [#] and
    six lower-case digits, and [hex_to_rgb] reads the channels back from it;
    so two such entries have the same key exactly when they have the same
    channels. *)
Theorem hex_key_roundtrip (c c' : color) :
  in_range c -> in_range c' ->
  is_canonical (hex_key c) = true
  /\ hex_to_rgb (hex_key c) = Ok (red c, green c, blue c)
  /\ (hex_key c = hex_key c' <->
      red c = red c' /\ green c = green c' /\ blue c = blue c').
Proof.
  intros (Hr & Hg & Hb) (Hr' & Hg' & Hb'). unfold hex_key.
  destruct (key_parses _ _ _ Hr Hg Hb) as [Hp Hc].
  destruct (key_parses _ _ _ Hr' Hg' Hb') as [Hp' _].
  split; [done|]. split; [done|]. split.
  - intros E. rewrite E, Hp' in Hp. by injection Hp as -> -> ->.
  - by intros (-> & -> & ->).
Qed.

Lemma hex_key_roundtrip_witness :
  is_canonical (hex_key (Color "Crimson" 220 20 60)) = true
  /\ hex_to_rgb (hex_key (Color "Crimson" 220 20 60)) = Ok (220, 20, 60)
  /\ (hex_key (Color "Crimson" 220 20 60) = hex_key (Color "Ruby Red" 220 20 60) <->
      220 = 220 /\ 20 = 20 /\ 60 = 60).
Proof.
  apply (hex_key_roundtrip (Color "Crimson" 220 20 60) (Color "Ruby Red" 220 20 60));
    repeat split; cbn; lia.
Defined.

(** X11. Parsing a canonical spelling and formatting the channels gives the
    spelling back: for a hex value spelled as the keys are, the key of the
    admitted entry is the hex value itself. *)
Theorem canonical_spelling_is_key (hex_val display_name : string) (r g b : Z) :
  is_canonical hex_val = true ->
  hex_to_rgb hex_val = Ok (r, g, b) ->
  hex_key (Color display_name r g b) = hex_val.
Proof. apply canonical_roundtrip. Qed.

Lemma canonical_spelling_is_key_witness :
  hex_key (Color "Spring" 0 255 16) = "#00ff10".
Proof. apply canonical_spelling_is_key; reflexivity. Defined.

(** * Further properties of the casing *)

Section Casing.

Lemma casing_char c :
  Char.to_lower (Char.to_upper c) = Char.to_lower c
  /\ Char.to_lower (Char.to_lower c) = Char.to_lower c
  /\ Char.to_upper (Char.to_upper c) = Char.to_upper c
  /\ Char.is_cased (Char.to_upper c) = Char.is_cased c
  /\ Char.is_cased (Char.to_lower c) = Char.is_cased c.
Proof.
  assert (F : casing_ok c = true).
  { revert c. apply forall_ascii. vm_compute. reflexivity. }
  unfold casing_ok in F. repeat (apply andb_prop in F as [F ?]).
  repeat match goal with
         | H : Ascii.eqb _ _ = true |- _ => apply Ascii.eqb_eq in H
         | H : Bool.eqb _ _ = true |- _ => apply eqb_prop in H
         end.
  repeat split; assumption.
Qed.

Lemma lower_title_from prev s : Str.lower (Str.title_from prev s) = Str.lower s.
Proof.
  revert prev. induction s as [|c s IH]; intros prev; [done|].
  cbn [Str.title_from Str.lower Str.map]. destruct (casing_char c) as (Hlu & Hll & _).
  f_equal; [by destruct prev|apply IH].
Qed.

Lemma title_from_again prev s :
  Str.title_from prev (Str.title_from prev s) = Str.title_from prev s.
Proof.
  revert prev. induction s as [|c s IH]; intros prev; [done|].
  cbn [Str.title_from]. destruct (casing_char c) as (_ & Hl & Hu & Hcu & Hcl).
  destruct prev; rewrite ?Hl, ?Hu, ?Hcu, ?Hcl, IH; done.
Qed.

End Casing.

(** X12. Title-casing changes the case of letters only: the lower-cased display
    name is the lower-cased raw name, so the name test of the merge compares
    raw names without regard to case; and a display name is its own
    title-casing. *)
Theorem title_keeps_lowercase (raw_name : string) :
  Str.is_ascii raw_name = true ->
  Str.lower (Str.title raw_name) = Str.lower raw_name
  /\ Str.title (Str.title raw_name) = Str.title raw_name.
Proof. intros _. split; [apply lower_title_from|apply title_from_again]. Qed.

Lemma title_keeps_lowercase_witness :
  Str.lower (Str.title "jack-o'LANTERN") = Str.lower "jack-o'LANTERN"
  /\ Str.title (Str.title "jack-o'LANTERN") = Str.title "jack-o'LANTERN".
Proof. apply title_keeps_lowercase. reflexivity. Defined.

(** * Further properties of the extraction and of the whole run *)

Section Extraction.

Implicit Types (s rest : string) (p : ascii -> bool).

Lemma span_forallb p s a b : Re.span p s = (a, b) -> Str.forallb p a = true.
Proof.
  revert a b. induction s as [|c s IH]; intros a b H; cbn in H.
  - by injection H as <- <-.
  - destruct (p c) eqn:Ec; [|by injection H as <- <-].
    destruct (Re.span p s) as [a' b']. injection H as <- <-.
    cbn. by rewrite Ec, (IH a' b').
Qed.

Lemma plus_captures p s g rest :
  Re.plus p s = Some (g, rest) -> g ≠ "" /\ Str.forallb p g = true.
Proof.
  unfold Re.plus. destruct (Re.span p s) as [a b] eqn:E. intros H.
  destruct a as [|c a]; [done|]. injection H as <- <-.
  split; [done|]. by eapply span_forallb.
Qed.

Lemma comma_number_captures s g rest :
  Re.comma_number s = Some (g, rest) -> is_number g.
Proof.
  unfold Re.comma_number. intros H.
  destruct (Re.lit "," (Re.spaces s)) as [s1|]; cbn in H; [|done].
  by apply plus_captures in H.
Qed.

Lemma match_at_captures s m rest :
  Re.match_at s = Some (m, rest) -> captured m.
Proof.
  unfold Re.match_at. intros H.
  destruct (Re.lit "NamedColor" s) as [s1|]; cbn [mbind option_bind] in H; [|discriminate H].
  destruct (Re.lit "(" (Re.spaces s1)) as [s2|]; cbn [mbind option_bind] in H; [|discriminate H].
  destruct (Re.lit _ (Re.spaces s2)) as [s3|]; cbn [mbind option_bind] in H; [|discriminate H].
  destruct (Re.plus Re.not_dquote s3) as [[nm s4]|] eqn:En; cbn [mbind option_bind] in H; [|discriminate H].
  destruct (Re.lit _ s4) as [s5|]; cbn [mbind option_bind] in H; [|discriminate H].
  destruct (Re.comma_number s5) as [[r s6]|] eqn:Er; cbn [mbind option_bind] in H; [|discriminate H].
  destruct (Re.comma_number s6) as [[g s7]|] eqn:Eg; cbn [mbind option_bind] in H; [|discriminate H].
  destruct (Re.comma_number s7) as [[b s8]|] eqn:Eb; cbn [mbind option_bind] in H; [|discriminate H].
  destruct (Re.lit ")" (Re.spaces s8)) as [s9|]; cbn [mbind option_bind] in H; [|discriminate H].
  injection H as <- <-. apply plus_captures in En as [? ?].
  apply comma_number_captures in Er, Eg, Eb. done.
Qed.

Lemma findall_from_captured s : forall skip, Forall captured (Re.findall_from skip s).
Proof.
  induction s as [|c s IH]; intros skip; cbn [Re.findall_from]; [constructor|].
  destruct skip; [|apply IH].
  destruct (Re.match_at (String c s)) as [[[[[nm r] g] b] rest]|] eqn:E; [|apply IH].
  constructor; [|apply IH]. by apply match_at_captures in E.
Qed.

Lemma digits_value_nonneg s acc :
  Str.forallb Char.is_digit s = true -> 0 <= acc -> 0 <= digits_value s acc.
Proof.
  revert acc. induction s as [|c s IH]; intros acc H Hacc; cbn; [done|].
  cbn in H. apply andb_prop in H as [Hc H].
  destruct (digit_char _ Hc) as (_ & _ & _ & _ & Hd). apply IH; [done|lia].
Qed.

Lemma to_colors_captured ms :
  Forall captured ms ->
  exists catalog, to_colors ms = Ok catalog /\ Forall readable catalog.
Proof.
  induction 1 as [|[[[nm r] g] b] ms (Hne & Hq & Hr & Hg & Hb) _ (catalog & IH & Hall)].
  { by exists []. }
  exists (Color nm (digits_value r 0) (digits_value g 0) (digits_value b 0) :: catalog).
  cbn [to_colors to_color]. rewrite !int_number by done. cbn. rewrite IH. cbn.
  split; [done|]. constructor; [|done]. unfold readable. cbn.
  repeat split; try done; apply digits_value_nonneg; try lia; by destruct Hr, Hg, Hb.
Qed.

Lemma extract_existing_readable content :
  exists catalog, extract_existing content = Ok catalog /\ Forall readable catalog.
Proof. apply to_colors_captured, findall_from_captured. Qed.

Lemma extract_serialize catalog :
  Forall readable catalog -> extract_existing (serialize catalog) = Ok catalog.
Proof.
  intros H. unfold extract_existing. rewrite findall_serialize by done.
  by apply to_colors_groups.
Qed.

Lemma spaces_blank w s : is_blank w -> Re.spaces (w ++ s) = Re.spaces s.
Proof.
  unfold is_blank, Re.spaces. induction w as [|c w IH]; cbn; [done|].
  intros [-> H]%andb_prop. by apply IH.
Qed.

Lemma spaces_blank_then c w s :
  Char.is_space c = false -> is_blank w -> Re.spaces (w ++ String c s) = String c s.
Proof.
  intros Hc Hw. rewrite spaces_blank by done. unfold Re.spaces. cbn. by rewrite Hc.
Qed.

Lemma span_stops p s t :
  Str.forallb p s = true -> stops p t -> Re.span p (s ++ t) = (s, t).
Proof.
  intros Hs Ht. induction s as [|a s IH]; cbn.
  - destruct t as [|c t]; [done|]. cbn in Ht |- *. by rewrite Ht.
  - cbn in Hs. apply andb_prop in Hs as [-> Hs]. by rewrite IH.
Qed.

Lemma space_not_digit c : Char.is_space c = true -> Char.is_digit c = false.
Proof.
  intros H.
  assert (F : implb (Char.is_space c) (negb (Char.is_digit c)) = true).
  { clear H. revert c. apply forall_ascii. vm_compute. reflexivity. }
  rewrite H in F. by apply negb_true_iff in F.
Qed.

Lemma blank_stops_digits w c rest :
  is_blank w -> Char.is_digit c = false -> stops Char.is_digit (w ++ String c rest).
Proof.
  intros Hw Hc. destruct w as [|a w]; [done|]. cbn.
  apply andb_prop in Hw as [Ha _]. by apply space_not_digit.
Qed.

Lemma comma_number_spaced w1 w2 g t :
  is_blank w1 -> is_blank w2 -> is_number g -> stops Char.is_digit t ->
  Re.comma_number (w1 ++ String "," (w2 ++ g ++ t)) = Some (g, t).
Proof.
  intros H1 H2 [Hne Hg] Ht. unfold Re.comma_number.
  rewrite spaces_blank_then by done.
  change (Re.lit "," (String "," ?x)) with (Some x). cbn [mbind option_bind].
  rewrite spaces_blank, spaces_number by done.
  unfold Re.plus. rewrite span_stops by done. by destruct g.
Qed.

End Extraction.


(** X14. What was read from a file, whatever the file, is read back unchanged
    from the file written with it. *)
Theorem extract_survives_rewrite (content : string) (catalog : list color) :
  extract_existing content = Ok catalog ->
  extract_existing (serialize catalog) = Ok catalog.
Proof.
  intros H. destruct (extract_existing_readable content) as (catalog' & H' & Hr).
  rewrite H in H'. injection H' as <-. by apply extract_serialize.
Qed.

Lemma extract_survives_rewrite_witness :
  extract_existing (serialize [Color "Sky" 7 200 255]) = Ok [Color "Sky" 7 200 255].
Proof.
  apply (extract_survives_rewrite
           ("val sky = NamedColor ( " ++ String dquote "Sky" ++ String dquote " ,007, 200 ,255 )")).
  vm_compute. reflexivity.
Defined.

(** X15. The pattern allows whitespace after the constructor name, inside the
    parentheses and around the commas: an entry written with any such
    whitespace is captured, and the scan goes on after it. *)
Theorem findall_spaced_entry
    (w1 w2 w3 w4 w5 w6 w7 w8 w9 entry_name r g b rest : string) :
  is_blank w1 -> is_blank w2 -> is_blank w3 -> is_blank w4 -> is_blank w5 ->
  is_blank w6 -> is_blank w7 -> is_blank w8 -> is_blank w9 ->
  captured (entry_name, r, g, b) ->
  Re.findall (spaced_entry_text w1 w2 w3 w4 w5 w6 w7 w8 w9 entry_name r g b rest)
  = (entry_name, r, g, b) :: Re.findall rest.
Proof.
  intros H1 H2 H3 H4 H5 H6 H7 H8 H9 (Hne & Hq & Hr & Hg & Hb).
  assert (Hm : Re.match_at
                 (spaced_entry_text w1 w2 w3 w4 w5 w6 w7 w8 w9 entry_name r g b rest)
               = Some (entry_name, r, g, b, rest)).
  { unfold Re.match_at, spaced_entry_text. rewrite lit_append.
    cbn [mbind option_bind String.append].
    rewrite (spaces_blank_then "(") by done.
    change (Re.lit "(" (String "(" ?x)) with (Some x). cbn [mbind option_bind].
    rewrite (spaces_blank_then dquote) by done.
    change (Re.lit (String dquote "") (String dquote ?x)) with (Some x).
    cbn [mbind option_bind].
    rewrite plus_append by done. cbn [mbind option_bind].
    change (Re.lit (String dquote "") (String dquote ?x)) with (Some x).
    cbn [mbind option_bind].
    rewrite (comma_number_spaced w3 w4 r) by (try done; by apply blank_stops_digits).
    cbn [mbind option_bind].
    rewrite (comma_number_spaced w5 w6 g) by (try done; by apply blank_stops_digits).
    cbn [mbind option_bind].
    rewrite (comma_number_spaced w7 w8 b) by (try done; by apply blank_stops_digits).
    cbn [mbind option_bind].
    by rewrite (spaces_blank_then ")"). }
  assert (Happ : spaced_entry_text w1 w2 w3 w4 w5 w6 w7 w8 w9 entry_name r g b rest
                 = (spaced_entry_text w1 w2 w3 w4 w5 w6 w7 w8 w9 entry_name r g b ""
                      ++ rest)%string).
  { unfold spaced_entry_text.
    repeat first [rewrite append_assoc | progress cbn [String.append]]. done. }
  unfold Re.findall. rewrite Happ in Hm |- *.
  destruct (spaced_entry_text w1 w2 w3 w4 w5 w6 w7 w8 w9 entry_name r g b "")
    as [|a body] eqn:E; [done|].
  cbn [String.append] in Hm |- *. cbn [Re.findall_from]. rewrite Hm. f_equal.
  cbn [String.length]. rewrite length_append.
  replace (S (String.length body + String.length rest) - String.length rest - 1)%nat
    with (String.length body) by lia.
  apply findall_skip.
Qed.

Lemma findall_spaced_entry_witness :
  Re.findall (spaced_entry_text " " "" (String newline "") " " "" "  " "" "" " "
                                "Sky" "007" "200" "255" "")
  = [("Sky", "007", "200", "255")].
Proof.
  apply (findall_spaced_entry " " "" (String newline "") " " "" "  " "" "" " "
                              "Sky" "007" "200" "255" "");
    try reflexivity.
  repeat split; (discriminate || reflexivity).
Defined.

Section Run.

Lemma merge_nothing catalog : merge catalog [] = Ok (catalog, 0%nat).
Proof. unfold merge. cbn. by rewrite seed_final, seed_added. Qed.

Lemma generate_on_serialized data catalog k parsed final added :
  Forall readable catalog ->
  len data = Ok k ->
  flatten data = Ok parsed ->
  merge catalog parsed = Ok (final, added) ->
  generate data (serialize catalog) = Ok (serialize final).
Proof.
  intros Hr Hlen Hflat Hmerge. unfold generate.
  rewrite Hlen. cbn [mbind outcome_bind]. rewrite Hflat. cbn [mbind outcome_bind].
  rewrite extract_serialize by done. cbn [mbind outcome_bind]. by rewrite Hmerge.
Qed.

Lemma main_without_response e content :
  exists catalog,
    Forall readable catalog
    /\ extract_existing content = Ok catalog
    /\ main (Raise e) content = Ok (serialize catalog).
Proof.
  destruct (extract_existing_readable content) as (catalog & H & Hr).
  exists catalog. split; [done|]. split; [done|].
  unfold main, generate. cbn [get_more_colors len flatten flatten_list mbind outcome_bind].
  rewrite H. cbn [mbind outcome_bind]. by rewrite merge_nothing.
Qed.






End Run.




(** X18. After one run without a response, further runs without a response leave
    the file as it is. *)
Theorem main_fetch_failure_stable (e e' : exn) (content written : string) :
  main (Raise e) content = Ok written ->
  main (Raise e') written = Ok written.
Proof.
  intros H. destruct (main_without_response e content) as (catalog & Hr & _ & H1).
  rewrite H1 in H. injection H as <-.
  unfold main. cbn [get_more_colors].
  apply (generate_on_serialized _ _ 0%nat [] catalog 0%nat); try done.
  apply merge_nothing.
Qed.

Lemma main_fetch_failure_stable_witness :
  main (Raise TypeError) (serialize [Color "Sky" 7 200 255])
  = Ok (serialize [Color "Sky" 7 200 255]).
Proof.
  apply (main_fetch_failure_stable ValueError TypeError
           ("NamedColor(" ++ String dquote "Sky" ++ String dquote ",007,200,255)")).
  vm_compute. reflexivity.
Defined.



(** * Further properties of the matcher *)

Section ExactMatch.

Variables r g b : Z.

Implicit Types (c : color).

Lemma getColorName_first_nearest colorList :
  colorList ≠ [] ->
  exists i c, first_nearest r g b colorList i c /\ getColorName colorList r g b = name c.
Proof.
  intros Hne. destruct colorList as [|x rest]; [done|].
  destruct (closest_from_first_nearest r g b rest [x] 0 x) as (i & c & Hn & Hr).
  { split; [done|split].
    - intros c' ->%list_elem_of_singleton. lia.
    - intros j c' Hj. lia. }
  by exists i, c.
Qed.

Lemma distance2_zero c : distance2 r g b c = 0 <-> same_channels r g b c.
Proof.
  unfold distance2, distance_squared, same_channels. split.
  - intros H. repeat split; nia.
  - intros (-> & -> & ->). rewrite !Z.sub_diag. done.
Qed.

End ExactMatch.

(** X20. A query colour that is in the catalog gets the name of the first entry
    that has exactly that colour. *)
Theorem getColorName_exact (colorList : list color) (r g b : Z) (i : nat) (c : color) :
  Forall in_range colorList ->
  colorList !! i = Some c ->
  same_channels r g b c ->
  (forall j c', (j < i)%nat -> colorList !! j = Some c' -> ~ same_channels r g b c') ->
  getColorName colorList r g b = name c.
Proof.
  intros _ Hi Hc Hfirst.
  destruct (getColorName_first_nearest r g b colorList) as (k & n & (Hk & Hmin & Hbefore) & ->).
  { by intros ->. }
  assert (Hzero : distance2 r g b n = 0).
  { pose proof (distance2_nonneg r g b n).
    pose proof (Hmin c (list_elem_of_lookup_2 _ _ _ Hi)) as Hle.
    rewrite (proj2 (distance2_zero r g b c) Hc) in Hle. lia. }
  destruct (Nat.lt_trichotomy k i) as [Hlt|[->|Hgt]].
  - destruct (Hfirst k n Hlt Hk). by apply distance2_zero.
  - rewrite Hi in Hk. by injection Hk as ->.
  - specialize (Hbefore i c Hgt Hi).
    rewrite (proj2 (distance2_zero r g b c) Hc) in Hbefore. lia.
Qed.

Lemma getColorName_exact_witness :
  getColorName [Color "Red" 255 0 0; Color "Black" 0 0 0; Color "Jet" 0 0 0] 0 0 0 = "Black".
Proof.
  apply (getColorName_exact _ 0 0 0 1 (Color "Black" 0 0 0)).
  - repeat constructor; cbn; lia.
  - reflexivity.
  - by repeat split.
  - intros j c' Hj Hc' (Hr & _). destruct j as [|j]; [|lia].
    injection Hc' as <-. discriminate Hr.
Defined.
